(** * View models of phy: a shallow embedding of [phy/cluster/view_models.py]

    The development follows the source file top-down:
    - [Py]: the few Python and NumPy primitives the view models rely on
      (exceptions, [int()], [np.clip], [for ... in range(...)]);
    - [Trace]: the interval setter, [move] and the spikes of [_load_traces]
      of [TraceViewModel];
    - [Ccg]: [_oddify], [change_bins], [on_select], [_normalize], the
      normalization setter and [toggle_normalization] of
      [CorrelogramViewModel];
    - [Scroll]: [move_right], [move_left] and the default interval of
      [on_select] of [TraceViewModel];
    - [Features]: the dimension matrix [_dimensions], the channels of
      [FeatureGridViewModel.dimensions_for_clusters] and the background
      spikes of [on_open].

    Python integers are unbounded and are modelled by [Z].  Python floats are
    an interface, [Floating], with two instances: the rationals [Q], which
    compute exactly, and the binary64 numbers of [PrimFloat], which compute
    as the code does.  The properties of the bins are proved on binary64;
    the scalars of the normalization are stated on the rationals, and what
    does not depend on the arithmetic is proved for every instance. *)

From Stdlib Require Import ZArith QArith Qround Qminmax Lia Sorted.
From Stdlib Require Import Floats.
From stdpp Require Import base gmap strings list.

Set Warnings "-register-all,-inexact-float".

(** ** Python primitives *)

Module Py.

(** Exceptions raised by the modelled code, with their message. *)
Inductive exn : Type :=
| ValueError (msg : string)
| TypeError (msg : string)
| OverflowError (msg : string)
| IndexError (msg : string)
| AssertionError.

(** A computation either returns a value or raises. *)
Inductive result (A : Type) : Type :=
| Ok (a : A)
| Raise (e : exn).
Global Arguments Ok {A} a.
Global Arguments Raise {A} e.

Definition bind {A B : Type} (m : result A) (k : A -> result B) : result B :=
  match m with
  | Ok a => k a
  | Raise e => Raise e
  end.

(** [assert b] *)
Definition py_assert (b : bool) : result unit :=
  if b then Ok tt else Raise AssertionError.

(** [for i in range(lo, lo + len): s = body(i, s)] *)
Fixpoint for_range {S : Type} (lo len : nat) (body : nat -> S -> result S)
    (s : S) : result S :=
  match len with
  | O => Ok s
  | Datatypes.S len' => bind (body lo s) (for_range (Datatypes.S lo) len' body)
  end.

(** [[f(x) for x in l]], stopping at the first exception. *)
Fixpoint mapM {A B : Type} (f : A -> result B) (l : list A) : result (list B) :=
  match l with
  | [] => Ok []
  | x :: l' => bind (f x) (fun y => bind (mapM f l') (fun ys => Ok (y :: ys)))
  end.

(** [l[i]] for a non-negative index [i]. *)
Definition py_index {A : Type} (l : list A) (i : nat) : result A :=
  match l !! i with
  | Some a => Ok a
  | None => Raise (IndexError "list index out of range")
  end.

(** [np.clip(x, lo, hi)] on integers: [minimum(maximum(x, lo), hi)]. *)
Definition np_clip (x lo hi : Z) : Z := Z.min (Z.max x lo) hi.

(** Truncation of a rational towards zero, as [int(x)] does on a float. *)
Definition Qtrunc (q : Q) : Z := Z.quot (Qnum q) (Zpos (Qden q)).

(** A Python float: finite (idealised as a rational), NaN or infinite. *)
Inductive pyfloat : Type :=
| FFinite (q : Q)
| FNan
| FInf (negative : bool).

(** The Python values that can reach the interval setter. *)
Inductive pyval : Type :=
| PyInt (z : Z)
| PyFloat (f : pyfloat)
| PyNone
| PyTuple (items : list pyval)
| PyList (items : list pyval).

(** [int(v)] *)
Definition py_int (v : pyval) : result Z :=
  match v with
  | PyInt z => Ok z
  | PyFloat (FFinite q) => Ok (Qtrunc q)
  | PyFloat FNan => Raise (ValueError "cannot convert float NaN to integer")
  | PyFloat (FInf _) =>
      Raise (OverflowError "cannot convert float infinity to integer")
  | _ => Raise (TypeError "int() argument must be a string or a real number")
  end.

End Py.

Import Py.

Notation "'do' x <- m ; k" := (bind m (fun x => k))
  (at level 10, x name, m at level 100, k at level 200, only parsing).

(** ** [TraceViewModel]: the interval of the trace view *)

Module Trace.
Local Open Scope Z_scope.

(** The part of a [TraceViewModel] the interval setter reads and writes:
    [n_samples] is [self.model.traces.shape[0]]. *)
Record TraceViewModel : Type := {
  n_samples : Z;
  _interval : option (Z * Z);
}.

Definition invalid_interval : exn :=
  ValueError "The interval should be a (start, end) tuple.".

(** Lines 598-605: restrict the interval to the boundaries of the traces. *)
Definition clamp_interval (n start end_ : Z) : Z * Z :=
  let '(start, end_) :=
    if start <? 0 then (0, end_ + (- start))
    else if end_ >=? n then (start - (end_ - n), n)
    else (start, end_) in
  let start := np_clip start 0 end_ in
  let end_ := np_clip end_ start n in
  (start, end_).

(** [assert 0 <= start < end <= n] *)
Definition interval_ok (n : Z) (i : Z * Z) : bool :=
  (0 <=? fst i) && (fst i <? snd i) && (snd i <=? n).

(** The setter of the [interval] property.  Loading the traces and
    refreshing the view, which follow the assignment of [self._interval],
    act on the rendering surface only and are left out. *)
Definition interval_setter (self : TraceViewModel) (value : pyval)
    : result TraceViewModel :=
  match value with
  | PyTuple [a; b] =>
      do start <- py_int a;
      do end_ <- py_int b;
      let n := n_samples self in
      let i := clamp_interval n start end_ in
      do checked <- py_assert (interval_ok n i);
      Ok {| n_samples := n; _interval := Some i |}
  | _ => Raise invalid_interval
  end.

(** [move(amount)] for an integer amount. *)
Definition move (self : TraceViewModel) (amount : Z) : result TraceViewModel :=
  match _interval self with
  | Some (start, end_) =>
      interval_setter self (PyTuple [PyInt (start + amount); PyInt (end_ + amount)])
  | None => Raise (TypeError "cannot unpack non-iterable NoneType object")
  end.

(** The arrays of the model that [_load_traces] indexes by spike, and the
    fields of the visual that it assigns. *)
Record KwikModel : Type := {
  model_spike_samples : list Z;
  model_spike_clusters : list Z;
  model_masks : list (list float);
}.

Record TraceVisual : Type := {
  n_spikes : nat;
  spike_ids : list nat;
  spike_clusters : list Z;
  spike_samples : list Z;
  offset : Z;
  masks : list (list float);
}.

(** [a.searchsorted(v)] on an array sorted in ascending order: the first
    index whose entry is not below [v]. *)
Fixpoint searchsorted (a : list Z) (v : Z) : nat :=
  match a with
  | [] => O
  | x :: a' => if x <? v then S (searchsorted a' v) else O
  end.

(** [l[a:b]] for indices that are not negative. *)
Definition py_slice {A : Type} (l : list A) (a b : nat) : list A :=
  take (b - a) (drop a l).

(** [arr[idx]] for an array of indices that are not negative. *)
Definition fancy_index {A : Type} (arr : list A) (idx : list nat)
    : result (list A) :=
  mapM (py_index arr) idx.

(** The second half of [_load_traces(interval)]: keep the spikes in the
    interval.  [spikes] is [self.spike_ids]. *)
Definition _load_traces_spikes (model : KwikModel) (spikes : list nat)
    (visual : TraceVisual) (interval : Z * Z) : result TraceVisual :=
  let '(start, end_) := interval in
  do samples <- fancy_index (model_spike_samples model) spikes;
  let a := searchsorted samples start in
  let b := searchsorted samples end_ in
  let spikes := py_slice spikes a b in
  let visual :=
    {| n_spikes := length spikes; spike_ids := spikes;
       spike_clusters := spike_clusters visual;
       spike_samples := spike_samples visual;
       offset := offset visual; masks := masks visual |} in
  if Nat.eqb (length spikes) 0 then Ok visual
  else
    do clusters <- fancy_index (model_spike_clusters model) spikes;
    do samples <- fancy_index (model_spike_samples model) spikes;
    do spike_masks <- fancy_index (model_masks model) spikes;
    Ok {| n_spikes := n_spikes visual; spike_ids := spike_ids visual;
          spike_clusters := clusters;
          spike_samples := map (fun sample => sample - start) samples;
          offset := start; masks := spike_masks |}.

End Trace.

(** ** [CorrelogramViewModel] *)

Module Ccg.

(** The operations on floats that the correlogram view model uses.  The
    three literals of the source are fields, so that an instance decides how
    they are represented. *)
Class Floating (F : Type) : Type := {
  f_of_Z : Z -> F;            (* an integer operand of a float operation *)
  f_milli : F;                (* the literal [.001] *)
  f_mega : F;                 (* the literal [1e6] *)
  f_one : F;                  (* the literal [1.] *)
  f_mul : F -> F -> F;
  f_div : F -> F -> F;
  f_ltb : F -> F -> bool;
  f_int : F -> result Z;      (* [int(x)] *)
}.

(** Exact arithmetic: floats idealised as rationals. *)
#[export] Instance Q_float : Floating Q := {
  f_of_Z := inject_Z;
  f_milli := 1 # 1000;
  f_mega := 1000000 # 1;
  f_one := 1 # 1;
  f_mul := Qmult;
  f_div := Qdiv;
  f_ltb := fun a b => match Qcompare a b with Lt => true | _ => false end;
  f_int := fun q => Ok (Qtrunc q);
}.

(** [int(x)] on a binary64 number. *)
Definition f64_int (x : float) : result Z :=
  match Prim2SF x with
  | S754_zero _ => Ok 0%Z
  | S754_finite s m e =>
      let a := if (0 <=? e)%Z then Z.shiftl (Zpos m) e
               else Z.shiftr (Zpos m) (- e) in
      Ok (if s then (- a)%Z else a)
  | S754_infinity _ =>
      Raise (OverflowError "cannot convert float infinity to integer")
  | S754_nan => Raise (ValueError "cannot convert float NaN to integer")
  end.

(** IEEE 754 binary64 arithmetic, as CPython and NumPy compute. *)
#[export] Instance binary64_float : Floating float := {
  f_of_Z := fun z => SF2Prim (binary_normalize prec emax z 0 false);
  f_milli := 0.001%float;
  f_mega := 1e6%float;
  f_one := 1%float;
  f_mul := PrimFloat.mul;
  f_div := PrimFloat.div;
  f_ltb := PrimFloat.ltb;
  f_int := f64_int;
}.

(** [_oddify(x)]: [x if x % 2 == 1 else x + 1]. *)
Definition _oddify (x : Z) : Z :=
  if (x mod 2 =? 1)%Z then x else (x + 1)%Z.

(** The raw correlograms: counts indexed by [cluster_i, cluster_j, lag_bin]. *)
Abbreviation tensor := (list (list (list Z))).

(** [a.max()] on the flattened entries; NumPy raises on a zero-size array. *)
Definition array_max (a : list Z) : result Z :=
  match a with
  | [] => Raise (ValueError "zero-size array to reduction operation maximum which has no identity")
  | x :: a' => Ok (fold_left Z.max a' x)
  end.

Section ViewModel.
Context {F : Type} `{Floating F}.

(** [max(a, b)] of Python on two numbers, which is also [np.maximum(a, b)]
    on each entry: [b] when [a < b], and [a] otherwise. *)
Definition f_max (a b : F) : F := if f_ltb a b then b else a.
Definition f_min (a b : F) : F := if f_ltb b a then b else a.

(** [np.clip(x, lo, hi)] on floats. *)
Definition f_clip (x lo hi : F) : F := f_min (f_max x lo) hi.

(** What [_normalize] may hand to the view: the integer array it was given,
    or a new array of floats. *)
Inductive ndarray : Type :=
| IntArray (a : tensor)
| FloatArray (a : list (list (list F))).

(** Calls to the collaborators of the view model (selector, histogram
    kernel, rendering surface), in the order they are made. *)
Inductive event : Type :=
| SelectorSelect (clusters : list Z)
| UpdateSpikeClusters
| ViewSetClusterIds (clusters : list Z)
| Correlograms (cluster_order : list Z) (binsize winsize_bins : Z)
| ViewSetCorrelograms (a : option ndarray)
| VisualSetCorrelograms (a : option ndarray)
| VisualSetClusterOrder (clusters : list Z)
| ViewUpdate.

Record CorrelogramViewModel : Type := {
  sample_rate : F;                (* [self.model.sample_rate] *)
  cluster_ids : list Z;           (* [self._selector.selected_clusters] *)
  binsize : Z;
  winsize_bins : Z;
  _normalization : string;
  _ccgs : option tensor;          (* [None] until the first selection *)
  calls : list event;
}.

(** The histogram kernel [correlograms] and [_symmetrize_correlograms] of
    [phy.stats.ccg] are collaborators: the view model only passes their
    results on.  The spike samples and spike clusters handed to the kernel
    are determined by the selection. *)
Variable correlograms : list Z -> Z -> Z -> result tensor.
Variable _symmetrize_correlograms : tensor -> tensor.

Definition emit (self : CorrelogramViewModel) (evs : list event)
    : CorrelogramViewModel :=
  {| sample_rate := sample_rate self; cluster_ids := cluster_ids self;
     binsize := binsize self; winsize_bins := winsize_bins self;
     _normalization := _normalization self; _ccgs := _ccgs self;
     calls := calls self ++ evs |}.

(** [x * c] for a count [x] and a float [c]. *)
Definition scale (c : F) (x : Z) : F := f_mul (f_of_Z x) c.

(** [ccgs * (1. / max(1., m))] on one lag slice, [m] being its maximum. *)
Definition normalize_slice (slice : list Z) : result (list F) :=
  do m <- array_max slice;
  Ok (map (scale (f_div f_one (f_max f_one (f_of_Z m)))) slice).

(** [self._normalize(ccgs)].  The result [None] is Python's [None], which a
    function returns when it falls off its end. *)
Definition _normalize (self : CorrelogramViewModel) (ccgs : option tensor)
    : result (option ndarray) :=
  match ccgs with
  | None => Raise (TypeError "object of type 'NoneType' has no len()")
  | Some ccgs =>
      if Nat.eqb (length ccgs) 0 then Ok (Some (IntArray ccgs))
      else if String.eqb (_normalization self) "equal" then
        do m <- array_max (concat (concat ccgs));
        let c := f_div f_one (f_max f_one (f_of_Z m)) in
        Ok (Some (FloatArray (map (map (map (scale c))) ccgs)))
      else if String.eqb (_normalization self) "independent" then
        do a <- mapM (mapM normalize_slice) ccgs;
        Ok (Some (FloatArray a))
      else Ok None
  end.

(** [on_select(clusters)] *)
Definition on_select (self : CorrelogramViewModel) (clusters : list Z)
    : result CorrelogramViewModel :=
  (* super().on_select(clusters); self.view.cluster_ids = clusters *)
  let self := emit self [UpdateSpikeClusters; ViewUpdate;
                         ViewSetClusterIds clusters] in
  let w := _oddify (winsize_bins self) in
  let self := emit self [Correlograms clusters (binsize self) w] in
  do ccgs <- correlograms clusters (binsize self) w;
  let self :=
    {| sample_rate := sample_rate self; cluster_ids := cluster_ids self;
       binsize := binsize self; winsize_bins := winsize_bins self;
       _normalization := _normalization self;
       _ccgs := Some (_symmetrize_correlograms ccgs);
       calls := calls self |} in
  do a <- _normalize self (_ccgs self);
  Ok (emit self [ViewSetCorrelograms a; VisualSetClusterOrder clusters;
                 ViewUpdate]).

(** [select(cluster_ids)] of [VispyViewModel]. *)
Definition select (self : CorrelogramViewModel) (ids : list Z)
    : result CorrelogramViewModel :=
  let self :=
    {| sample_rate := sample_rate self; cluster_ids := ids;
       binsize := binsize self; winsize_bins := winsize_bins self;
       _normalization := _normalization self; _ccgs := _ccgs self;
       calls := calls self ++ [SelectorSelect ids] |} in
  on_select self ids.

(** The numeric part of [change_bins(bin, half_width)]: the clipped bin and
    half width in seconds, then [binsize] and [winsize_bins]. *)
Definition bin_seconds (bin : F) : F := f_clip (f_mul bin f_milli) f_milli f_mega.

Definition bins_of (sr bin half_width : F) : result (Z * Z) :=
  let bin := bin_seconds bin in
  do binsize <- f_int (f_mul sr bin);
  let half_width := f_clip (f_mul half_width f_milli) f_milli f_mega in
  do k <- f_int (f_div half_width bin);
  Ok (binsize, (2 * k + 1)%Z).

(** [self.binsize = b; self.winsize_bins = w] *)
Definition set_bins (self : CorrelogramViewModel) (b w : Z)
    : CorrelogramViewModel :=
  {| sample_rate := sample_rate self; cluster_ids := cluster_ids self;
     binsize := b; winsize_bins := w;
     _normalization := _normalization self; _ccgs := _ccgs self;
     calls := calls self |}.

(** [change_bins(bin, half_width)] *)
Definition change_bins (self : CorrelogramViewModel) (bin half_width : F)
    : result CorrelogramViewModel :=
  do b <- bins_of (sample_rate self) bin half_width;
  let self := set_bins self (fst b) (snd b) in
  select self (cluster_ids self).

(** [self._normalization = value] *)
Definition set_normalization (self : CorrelogramViewModel) (value : string)
    : CorrelogramViewModel :=
  {| sample_rate := sample_rate self; cluster_ids := cluster_ids self;
     binsize := binsize self; winsize_bins := winsize_bins self;
     _normalization := value; _ccgs := _ccgs self;
     calls := calls self |}.

(** The setter of the [normalization] property. *)
Definition normalization_setter (self : CorrelogramViewModel) (value : string)
    : result CorrelogramViewModel :=
  let self := set_normalization self value in
  do a <- _normalize self (_ccgs self);
  Ok (emit self [VisualSetCorrelograms a; ViewUpdate]).

(** [toggle_normalization()] *)
Definition toggle_normalization (self : CorrelogramViewModel)
    : result CorrelogramViewModel :=
  normalization_setter self
    (if String.eqb (_normalization self) "independent" then "equal"
     else "independent").

(** How often the histogram kernel has been called. *)
Definition is_kernel_call (e : event) : bool :=
  match e with
  | Correlograms _ _ _ => true
  | _ => false
  end.

Definition kernel_calls (evs : list event) : nat :=
  length (List.filter is_kernel_call evs).

End ViewModel.

End Ccg.

(** ** [TraceViewModel]: scrolling and the default interval *)

Module Scroll.
Import Trace Ccg.
Local Open Scope Z_scope.

(** A Python number: [move_right] and [move_left] are called with the
    float [.05] (their default) and with the integer [1]. *)
Inductive number : Type :=
| NInt (z : Z)
| NFloat (x : float).

(** [int(width * fraction)] for an integer [width]: integer arithmetic when
    the fraction is an integer, binary64 arithmetic when it is a float. *)
Definition scaled (width : Z) (fraction : number) : result Z :=
  match fraction with
  | NInt z => Ok (width * z)
  | NFloat x => f64_int (f_mul (f_of_Z width) x)
  end.

(** [move_right(fraction)]: [self.move(int(+(end - start) * fraction))]. *)
Definition move_right (self : TraceViewModel) (fraction : number)
    : result TraceViewModel :=
  match _interval self with
  | Some (start, end_) =>
      do amount <- scaled (end_ - start) fraction;
      move self amount
  | None => Raise (TypeError "cannot unpack non-iterable NoneType object")
  end.

(** [move_left(fraction)]: [self.move(int(-(end - start) * fraction))]. *)
Definition move_left (self : TraceViewModel) (fraction : number)
    : result TraceViewModel :=
  match _interval self with
  | Some (start, end_) =>
      do amount <- scaled (- (end_ - start)) fraction;
      move self amount
  | None => Raise (TypeError "cannot unpack non-iterable NoneType object")
  end.

(** [int(self.interval_size * self.model.sample_rate / 2.)], in binary64. *)
Definition half_size (interval_size sample_rate : float) : result Z :=
  f64_int (f_div (f_mul interval_size sample_rate) 2%float).

(** The default interval that [on_select] sets: centred on the sample of
    the first selected spike ([first_sample], [None] when no spike is
    selected).  The assignments to the visual that precede it are left out,
    as in the setter. *)
Definition on_select (self : TraceViewModel) (interval_size sample_rate : float)
    (first_sample : option Z) : result TraceViewModel :=
  do half_size <- half_size interval_size sample_rate;
  let sample :=
    match first_sample with
    | Some sample => sample
    | None => half_size
    end in
  interval_setter self
    (PyTuple [PyInt (sample - half_size); PyInt (sample + half_size)]).

End Scroll.

(** ** The dimension matrix of the feature view *)

Module Features.

(** A dimension is the string ['time'] or a pair [(channel, feature)]. *)
Inductive dim : Type :=
| Time
| ChannelFeature (channel : Z) (feature : nat).

(** [x_dim] and [y_dim]: dictionaries keyed by the cell [(row, column)]. *)
Abbreviation dims := (gmap (nat * nat) dim).

(** Body of the first loop: time in the first column and the first row. *)
Definition first_row_col (x_channels y_channels : list Z) (i : nat)
    (d : dims * dims) : result (dims * dims) :=
  let '(x_dim, y_dim) := d in
  let x_dim := <[(0, i) := Time]> x_dim in
  do c <- py_index x_channels (i - 1);
  let y_dim := <[(0, i) := ChannelFeature c 0]> y_dim in
  let x_dim := <[(i, 0) := Time]> x_dim in
  do c' <- py_index y_channels (i - 1);
  let y_dim := <[(i, 0) := ChannelFeature c' 0]> y_dim in
  Ok (x_dim, y_dim).

(** Body of the inner loop of the second loop nest. *)
Definition interior_cell (x_channels y_channels : list Z) (i j : nat)
    (d : dims * dims) : result (dims * dims) :=
  let '(x_dim, y_dim) := d in
  do c <- py_index x_channels (i - 1);
  let x_dim := <[(i, j) := ChannelFeature c (j - 1)]> x_dim in
  do c' <- py_index y_channels (j - 1);
  let y_dim := <[(i, j) := ChannelFeature c' (i - 1)]> y_dim in
  Ok (x_dim, y_dim).

(** [_dimensions(x_channels, y_channels)]; [range(1, n + 1)] is the range of
    length [n] that starts at 1. *)
Definition _dimensions (x_channels y_channels : list Z)
    : result (dims * dims) :=
  let n := length x_channels in
  do checked <- py_assert (Nat.eqb (length y_channels) n);
  let y_dim : dims := ∅ in
  let x_dim : dims := ∅ in
  let x_dim := <[(0, 0) := Time]> x_dim in
  let y_dim := <[(0, 0) := Time]> y_dim in
  do d <- for_range 1 n (first_row_col x_channels y_channels) (x_dim, y_dim);
  for_range 1 n
    (fun i => for_range 1 n (interior_cell x_channels y_channels i)) d.

(** [n_rows] of [FeatureGridViewModel]: [self.n_features + 1]. *)
Definition n_rows (n_features : nat) : nat := n_features + 1.

Section FeatureGrid.

(** [_best_channels(cluster, model, store)]: the channels ranked by the
    store's mean features of the cluster, through [np.argsort]; a
    collaborator here. *)
Variable _best_channels : Z -> list Z.

(** [dimensions_for_clusters(cluster_ids)] of [FeatureGridViewModel]. *)
Definition dimensions_for_clusters (n_features : nat) (cluster_ids : list Z)
    : result (dims * dims) :=
  let n := length cluster_ids in
  if Nat.eqb n 0 then Ok (∅, ∅)
  else
    do second <- py_index cluster_ids (Nat.min 1 (n - 1));
    let x_channels := _best_channels second in
    do first <- py_index cluster_ids 0;
    let y_channels := _best_channels first in
    let y_channels := take (n_rows n_features - 1) y_channels in
    let x_channels := filter (fun c => c ∉ y_channels) x_channels in
    let x_channels := take (n_rows n_features - 1) x_channels in
    _dimensions x_channels y_channels.

End FeatureGrid.





End Features.

(** ** Definitions used to state the properties *)

Import Trace Ccg Features.

(** Milliseconds converted to seconds and clamped to [[0.001, 1e6]], in the
    words of the specification. *)
Definition seconds (ms : Q) : Q :=
  Qmin (Qmax (ms * (1 # 1000)) (1 # 1000)) (1000000 # 1).

(** Rounding to the nearest integer, with ties to the even neighbour as
    [round] of Python does. *)
Definition round_nearest (q : Q) : Z :=
  let f := Qfloor q in
  match Qcompare (q - inject_Z f) (1 # 2) with
  | Lt => f
  | Gt => (f + 1)%Z
  | Eq => if Z.even f then f else (f + 1)%Z
  end.

(** The inverse of the divisor that the maximum [m] gives: [1. / max(1., m)]. *)
Definition inverse_divisor {F : Type} `{Floating F} (m : Z) : F :=
  f_div f_one (f_max f_one (f_of_Z m)).

(** The largest entry of a non-empty list. *)
Definition maximum (a : list Z) : Z :=
  match a with
  | [] => 0%Z
  | x :: a' => fold_left Z.max a' x
  end.

(** [m] is the largest entry of the list [a]. *)
Definition is_max (m : Z) (a : list Z) : Prop :=
  m ∈ a ∧ ∀ x, x ∈ a → (x <= m)%Z.

(** An array of shape [(n1, n2, n3)]. *)
Definition has_shape {A : Type} (n1 n2 n3 : nat) (t : list (list (list A)))
    : Prop :=
  length t = n1 ∧
  Forall (fun row => length row = n2 ∧ Forall (fun s => length s = n3) row) t.

(** The entry [t[i, j, k]]. *)
Definition entry {A : Type} (t : list (list (list A))) (i j k : nat)
    : option A :=
  row ← t !! i; slice ← row !! j; slice !! k.

(** The lag slice [t[i, j, :]]. *)
Definition lag_slice {A : Type} (t : list (list (list A))) (i j : nat)
    : option (list A) :=
  row ← t !! i; row !! j.

(** A view model and a tensor of shape [(2, 2, 3)] on which the properties
    are exercised. *)
Definition example_ccgs : tensor :=
  [[[1; 4; 1]; [0; 2; 0]]; [[0; 2; 0]; [3; 0; 3]]]%Z.

Definition example_view_model (mode : string) (ccgs : option tensor)
    : CorrelogramViewModel (F:=Q) :=
  {| sample_rate := 20000%Q; cluster_ids := [2; 5]%Z; binsize := 20%Z;
     winsize_bins := 41%Z; _normalization := mode; _ccgs := ccgs;
     calls := [] |}.

(** The same view model computing in binary64. *)
Definition example_view_model64 (mode : string) (ccgs : option tensor)
    : CorrelogramViewModel (F:=float) :=
  {| sample_rate := 20000%float; cluster_ids := [2; 5]%Z; binsize := 20%Z;
     winsize_bins := 41%Z; _normalization := mode; _ccgs := ccgs;
     calls := [] |}.

(** Two histogram kernels that agree at odd windows: one returns a tensor of
    zeros of shape [(n, n, winsize_bins)], the other one refuses even
    windows. *)
Definition example_kernel (clusters : list Z) (binsize winsize_bins : Z)
    : result tensor :=
  Ok (map (fun _ => map (fun _ => repeat 0%Z (Z.to_nat winsize_bins)) clusters)
        clusters).

Definition odd_only_kernel (clusters : list Z) (binsize winsize_bins : Z)
    : result tensor :=
  if Z.odd winsize_bins then example_kernel clusters binsize winsize_bins
  else Raise AssertionError.

(** The rational that a finite binary64 number denotes. *)
Definition sf_value (x : spec_float) : option Q :=
  match x with
  | S754_zero _ => Some 0%Q
  | S754_finite s m e =>
      let a := if (0 <=? e)%Z then inject_Z (Zpos m * 2 ^ e)
               else (Zpos m # 2 ^ Z.to_pos (- e))%Q in
      Some (if s then (- a)%Q else a)
  | _ => None
  end.

Definition f64_value (x : float) : option Q := sf_value (Prim2SF x).

(** A binary64 number that is neither NaN nor negative. *)
Definition sf_nonneg (x : spec_float) : bool :=
  match x with
  | S754_zero _ => true
  | S754_finite s _ _ => negb s
  | S754_infinity s => negb s
  | S754_nan => false
  end.

(** A positive finite binary64 number. *)
Definition sf_pos (x : spec_float) : bool :=
  match x with
  | S754_finite s _ _ => negb s
  | _ => false
  end.

(** A view model computing in binary64 whose bins were restored from
    saved parameters. *)
Definition restored_view_model64 : CorrelogramViewModel (F:=float) :=
  {| sample_rate := 20000%float; cluster_ids := [2; 5]%Z; binsize := 7%Z;
     winsize_bins := 9%Z; _normalization := "equal"; _ccgs := None;
     calls := [] |}.

(** A model with five spikes, and a visual that holds the spike of an
    earlier interval. *)
Definition example_model : KwikModel :=
  {| model_spike_samples := [5; 12; 20; 31; 47]%Z;
     model_spike_clusters := [2; 3; 2; 2; 3]%Z;
     model_masks := [[1; 0]; [0; 1]; [1; 1]; [1; 0]; [0; 1]]%float |}.

Definition stale_visual : TraceVisual :=
  {| n_spikes := 1; spike_ids := [1%nat]; spike_clusters := [3%Z];
     spike_samples := [2%Z]; offset := 10%Z; masks := [[0; 1]]%float |}.

(** The spikes with their samples, and those of them in the interval. *)
Definition in_interval (start end_ : Z) (spikes : list nat) (samples : list Z)
    : list (nat * Z) :=
  filter (fun p => (start <= p.2 < end_)%Z) (zip spikes samples).

(** The cells of the dimension matrix written so far, when the loop nest
    is about to write cell [(i, j)]: rows before [i], and row [i] up to
    column [j]. *)
Definition written (n i j r c : nat) : Prop :=
  1 <= r ∧ 1 <= c <= n ∧ (r < i ∨ (r = i ∧ c < j)).

#[local] Instance written_dec n i j r c : Decision (written n i j r c).
Proof. unfold written. apply _. Defined.

(** [x_dim] once the first loop has handled the indices below [b] and the
    loop nest the cells [written n i j]. *)
Definition x_dim_at (xs : list Z) (n b i j : nat) (cell : nat * nat)
    : option dim :=
  let '(r, c) := cell in
  if decide (written n i j r c)
  then (fun ch => ChannelFeature ch (c - 1)) <$> xs !! (r - 1)
  else if decide ((r = 0 ∧ c < b) ∨ (c = 0 ∧ r < b)) then Some Time
  else None.

Definition y_dim_at (xs ys : list Z) (n b i j : nat) (cell : nat * nat)
    : option dim :=
  let '(r, c) := cell in
  if decide (written n i j r c)
  then (fun ch => ChannelFeature ch (r - 1)) <$> ys !! (c - 1)
  else if decide (r = 0 ∧ c = 0) then Some Time
  else if decide (r = 0 ∧ c < b)
  then (fun ch => ChannelFeature ch 0) <$> xs !! (c - 1)
  else if decide (c = 0 ∧ r < b)
  then (fun ch => ChannelFeature ch 0) <$> ys !! (r - 1)
  else None.

(** The state of [_dimensions] agrees with [x_dim_at] and [y_dim_at]. *)
Definition dims_at (xs ys : list Z) (n b i j : nat) (d : dims * dims) : Prop :=
  ∀ cell, d.1 !! cell = x_dim_at xs n b i j cell
        ∧ d.2 !! cell = y_dim_at xs ys n b i j cell.

(** Two rankings of six channels, for the clusters 2 and (any other) 7. *)
Definition example_best_channels (cluster : Z) : list Z :=
  if (cluster =? 2)%Z then [3; 0; 2; 1; 4; 5]%Z else [1; 2; 0; 3; 5; 4]%Z.

(** * Properties

    ** Computations that may raise *)

Lemma bind_Ok {A B : Type} (m : result A) (k : A -> result B) (y : B) :
  bind m k = Ok y -> ∃ x, m = Ok x ∧ k x = Ok y.
Proof. destruct m as [x | e]; simpl; [eauto | discriminate]. Qed.

(** The rule of the [for] loop: an invariant that every iteration
    re-establishes, without raising, holds when the loop is left. *)
Lemma for_range_invariant {S : Type} (P : nat -> S -> Prop)
    (body : nat -> S -> result S) (len lo : nat) (s : S) :
  P lo s ->
  (∀ i s, lo <= i < lo + len -> P i s -> ∃ s', body i s = Ok s' ∧ P (Datatypes.S i) s') ->
  ∃ s', for_range lo len body s = Ok s' ∧ P (lo + len) s'.
Proof.
  revert lo s. induction len as [ | len IH]; intros lo s HP Hstep; simpl.
  - exists s. now rewrite Nat.add_0_r.
  - destruct (Hstep lo s ltac:(lia) HP) as (s1 & -> & HP1). simpl.
    destruct (IH (Datatypes.S lo) s1 HP1) as (s' & Hrun & HP').
    + intros i t Hi. apply Hstep. lia.
    + exists s'. split; [exact Hrun | ].
      now replace (lo + Datatypes.S len) with (Datatypes.S lo + len) by lia.
Qed.

(** ** The interval of the trace view *)

Section TraceInterval.
Local Open Scope Z_scope.

Lemma clamp_interval_cases n start end_ :
  clamp_interval n start end_ =
    if start <? 0 then (Z.min 0 (end_ - start),
                        Z.min (Z.max (end_ - start) (Z.min 0 (end_ - start))) n)
    else if end_ >=? n then (Z.min (Z.max (start - (end_ - n)) 0) n,
                             Z.min (Z.max n (Z.min (Z.max (start - (end_ - n)) 0) n)) n)
    else (Z.min (Z.max start 0) end_,
          Z.min (Z.max end_ (Z.min (Z.max start 0) end_)) n).
Proof.
  unfold clamp_interval, np_clip.
  destruct (start <? 0) eqn:Hs.
  - f_equal; f_equal; lia.
  - destruct (end_ >=? n); reflexivity.
Qed.

Lemma clamp_interval_bounds n start end_ :
  1 <= n -> start < end_ ->
  0 <= fst (clamp_interval n start end_) < snd (clamp_interval n start end_)
  ∧ snd (clamp_interval n start end_) <= n.
Proof.
  intros Hn Hlt. rewrite clamp_interval_cases.
  destruct (start <? 0) eqn:Hs; [apply Z.ltb_lt in Hs | apply Z.ltb_ge in Hs].
  - simpl. lia.
  - destruct (end_ >=? n) eqn:He; simpl.
    + apply Z.geb_le in He. lia.
    + rewrite Z.geb_leb in He. apply Z.leb_gt in He. lia.
Qed.

Lemma clamp_interval_width n start end_ :
  start < end_ -> end_ - start <= n ->
  snd (clamp_interval n start end_) - fst (clamp_interval n start end_)
    = end_ - start.
Proof.
  intros Hlt Hw. rewrite clamp_interval_cases.
  destruct (start <? 0) eqn:Hs; [apply Z.ltb_lt in Hs | apply Z.ltb_ge in Hs].
  - simpl. lia.
  - destruct (end_ >=? n) eqn:He; simpl.
    + apply Z.geb_le in He. lia.
    + rewrite Z.geb_leb in He. apply Z.leb_gt in He. lia.
Qed.

Lemma clamp_interval_fixed n start end_ :
  0 <= start < end_ ∧ end_ <= n -> clamp_interval n start end_ = (start, end_).
Proof.
  intros H. rewrite clamp_interval_cases.
  destruct (start <? 0) eqn:Hs; [apply Z.ltb_lt in Hs; lia | ].
  destruct (end_ >=? n) eqn:He.
  - apply Z.geb_le in He. f_equal; lia.
  - f_equal; lia.
Qed.

Lemma interval_ok_spec n i :
  interval_ok n i = true <-> 0 <= fst i < snd i ∧ snd i <= n.
Proof.
  unfold interval_ok. rewrite !andb_true_iff, !Z.leb_le, Z.ltb_lt. lia.
Qed.


Lemma interval_setter_ints (self : TraceViewModel) (a b : pyval) (start end_ : Z) :
  py_int a = Ok start -> py_int b = Ok end_ ->
  interval_setter self (PyTuple [a; b]) =
    if decide (start < end_ ∧ 1 <= n_samples self)
    then Ok {| n_samples := n_samples self;
               _interval := Some (clamp_interval (n_samples self) start end_) |}
    else Raise AssertionError.
Proof.
  intros Ha Hb. unfold interval_setter. rewrite Ha, Hb. simpl.
  set (n := n_samples self).
  destruct (interval_ok n (clamp_interval n start end_)) eqn:Hok.
  - apply interval_ok_spec in Hok. rewrite clamp_interval_cases in Hok.
    rewrite decide_True; [reflexivity | ].
    destruct (start <? 0) eqn:Hs; [apply Z.ltb_lt in Hs | apply Z.ltb_ge in Hs].
    + simpl in Hok. lia.
    + destruct (end_ >=? n) eqn:He; simpl in Hok.
      * apply Z.geb_le in He. lia.
      * rewrite Z.geb_leb in He. apply Z.leb_gt in He. lia.
  - rewrite decide_False; [reflexivity | ].
    intros [Hlt Hn].
    pose proof (clamp_interval_bounds n start end_ Hn Hlt) as Hb'.
    apply interval_ok_spec in Hb'. congruence.
Qed.

Lemma py_int_not_invalid (a : pyval) : py_int a <> Raise invalid_interval.
Proof. destruct a as [z | [q | | s] | | l | l]; discriminate. Qed.

(** C1: for integers [start < end], wherever they lie with respect to
    [[0, n)], and [n >= 1] trace samples, the setter does not raise (its
    assertion holds) and stores an interval [(start', end')] with
    [0 <= start' < end' <= n], of the same width as [(start, end)] whenever
    that width is at most [n]. *)
Theorem interval_setter_clamps (self : TraceViewModel) (start end_ : Z) :
  1 <= n_samples self -> start < end_ ->
  ∃ start' end',
    interval_setter self (PyTuple [PyInt start; PyInt end_])
      = Ok {| n_samples := n_samples self; _interval := Some (start', end') |}
    ∧ interval_ok (n_samples self) (start', end') = true
    ∧ 0 <= start' < end' ∧ end' <= n_samples self
    ∧ (end_ - start <= n_samples self -> end' - start' = end_ - start).
Proof.
  intros Hn Hlt.
  destruct (clamp_interval (n_samples self) start end_) as [s' e'] eqn:Hc.
  exists s', e'.
  pose proof (clamp_interval_bounds _ _ _ Hn Hlt) as Hb.
  pose proof (clamp_interval_width (n_samples self) _ _ Hlt) as Hw.
  rewrite Hc in Hb, Hw. simpl in Hb, Hw.
  split; [ | split].
  - rewrite (interval_setter_ints self (PyInt start) (PyInt end_) start end_ eq_refl eq_refl).
    rewrite decide_True by lia. now rewrite Hc.
  - now apply interval_ok_spec.
  - tauto.
Qed.

Lemma interval_setter_clamps_witness :
  1 <= 10 ∧ -3 < 4 ∧
  ∃ start' end',
    interval_setter {| n_samples := 10; _interval := None |}
        (PyTuple [PyInt (-3); PyInt 4])
      = Ok {| n_samples := 10; _interval := Some (start', end') |}
    ∧ interval_ok 10 (start', end') = true
    ∧ 0 <= start' < end' ∧ end' <= 10
    ∧ (4 - -3 <= 10 -> end' - start' = 4 - -3).
Proof.
  split; [lia | split; [lia | ]].
  apply (interval_setter_clamps {| n_samples := 10; _interval := None |} (-3) 4);
    simpl; lia.
Defined.

(** C9: the clamping is idempotent.  On an interval that is already within
    the traces, [0 <= start < end <= n] (so that [n >= 1]), the clamping
    computation returns the same interval, and so does the setter. *)
Theorem clamp_interval_idempotent (self : TraceViewModel) (start end_ : Z) :
  1 <= n_samples self -> 0 <= start < end_ ∧ end_ <= n_samples self ->
  clamp_interval (n_samples self) start end_ = (start, end_)
  ∧ interval_setter self (PyTuple [PyInt start; PyInt end_])
      = Ok {| n_samples := n_samples self; _interval := Some (start, end_) |}.
Proof.
  intros Hn H.
  pose proof (clamp_interval_fixed _ _ _ H) as Hfix.
  split; [exact Hfix | ].
  rewrite (interval_setter_ints self (PyInt start) (PyInt end_) start end_ eq_refl eq_refl).
  rewrite decide_True by lia. now rewrite Hfix.
Qed.

Lemma clamp_interval_idempotent_witness :
  1 <= 10 ∧ (0 <= 3 < 10 ∧ 10 <= 10) ∧
  clamp_interval 10 3 10 = (3, 10)
  ∧ interval_setter {| n_samples := 10; _interval := Some (0, 7) |}
        (PyTuple [PyInt 3; PyInt 10])
      = Ok {| n_samples := 10; _interval := Some (3, 10) |}.
Proof.
  split; [lia | split; [lia | ]].
  apply (clamp_interval_idempotent {| n_samples := 10; _interval := Some (0, 7) |} 3 10);
    simpl; lia.
Defined.

(** Clamping twice is clamping once. *)
Lemma clamp_interval_twice (n start end_ : Z) :
  1 <= n -> start < end_ ->
  clamp_interval n (fst (clamp_interval n start end_))
                   (snd (clamp_interval n start end_))
    = clamp_interval n start end_.
Proof.
  intros Hn Hlt. rewrite clamp_interval_fixed.
  - now destruct (clamp_interval n start end_).
  - now apply clamp_interval_bounds.
Qed.


(** C7, as the specification states it, fails on the code: a list of two
    values is rejected although it holds exactly two values, and a tuple of
    two numbers whose end does not exceed its start makes the setter raise
    (its assertion fails). *)
Lemma interval_setter_rejects_two_values :
  interval_setter {| n_samples := 10; _interval := None |}
      (PyList [PyInt 0; PyInt 5]) = Raise invalid_interval
  ∧ interval_setter {| n_samples := 10; _interval := None |}
      (PyTuple [PyInt 5; PyInt 5]) = Raise AssertionError.
Proof. split; reflexivity. Qed.

(** C7, amended: the setter raises the invalid-interval error exactly when
    its argument is not a tuple of length two; on a tuple of two numbers
    that convert to the integers [start] and [end], it stores the clamped
    interval when [start < end] and the traces have at least one sample, and
    fails its assertion otherwise. *)
Theorem interval_setter_errors (self : TraceViewModel) :
  (∀ value, interval_setter self value = Raise invalid_interval
            ↔ ¬ ∃ a b, value = PyTuple [a; b])
  ∧ (∀ a b start end_,
       py_int a = Ok start -> py_int b = Ok end_ ->
       interval_setter self (PyTuple [a; b]) =
         if decide (start < end_ ∧ 1 <= n_samples self)
         then Ok {| n_samples := n_samples self;
                    _interval := Some (clamp_interval (n_samples self) start end_) |}
         else Raise AssertionError).
Proof.
  split; [ | intros a b start end_; apply interval_setter_ints].
  intros value. split.
  - intros Hr (a & b & ->). unfold interval_setter in Hr.
    destruct (py_int a) as [start | e] eqn:Ha; simpl in Hr.
    + destruct (py_int b) as [end_ | e] eqn:Hb; simpl in Hr.
      * destruct (interval_ok _ _); simpl in Hr; discriminate.
      * apply (py_int_not_invalid b). congruence.
    + apply (py_int_not_invalid a). congruence.
  - intros Hn. destruct value as [z | f | | l | l]; try reflexivity.
    destruct l as [ | a [ | b [ | c l]]]; try reflexivity.
    exfalso. apply Hn. now exists a, b.
Qed.

Lemma interval_setter_errors_witness :
  py_int (PyFloat (FFinite (-7 # 2)%Q)) = Ok (-3)
  ∧ py_int (PyInt 4) = Ok 4
  ∧ interval_setter {| n_samples := 10; _interval := None |}
        (PyTuple [PyFloat (FFinite (-7 # 2)%Q); PyInt 4])
      = Ok {| n_samples := 10; _interval := Some (0, 7) |}.
Proof.
  split; [reflexivity | split; [reflexivity | ]].
  exact (proj2 (interval_setter_errors {| n_samples := 10; _interval := None |})
           (PyFloat (FFinite (-7 # 2)%Q)) (PyInt 4) (-3) 4 eq_refl eq_refl).
Defined.

End TraceInterval.

(** ** The bins of the correlograms *)

Section Bins.
Local Open Scope Q_scope.

Lemma Q_clip_min_max (x lo hi : Q) :
  f_clip x lo hi = Qmin (Qmax x lo) hi.
Proof.
  unfold f_clip, f_min, f_max. simpl.
  unfold Qmax, Qmin, GenericMinMax.gmax, GenericMinMax.gmin.
  destruct (x ?= lo) eqn:E1.
  - rewrite <- (Qcompare_antisym x hi). destruct (x ?= hi); reflexivity.
  - rewrite <- (Qcompare_antisym lo hi). destruct (lo ?= hi); reflexivity.
  - rewrite <- (Qcompare_antisym x hi). destruct (x ?= hi); reflexivity.
Qed.

Lemma bin_seconds_seconds (ms : Q) : bin_seconds ms = seconds ms.
Proof. unfold bin_seconds, seconds. now rewrite Q_clip_min_max. Qed.

Lemma seconds_bounds (ms : Q) : 1 # 1000 <= seconds ms ∧ seconds ms <= 1000000 # 1.
Proof.
  unfold seconds. split.
  - apply Q.min_glb; [apply Q.le_max_r | discriminate].
  - apply Q.le_min_r.
Qed.

Lemma Qtrunc_floor (q : Q) : 0 <= q -> Qtrunc q = Qfloor q.
Proof.
  destruct q as [a b]. unfold Qle, Qtrunc, Qfloor. simpl. intros Ha.
  apply Z.quot_div_nonneg; lia.
Qed.

Lemma seconds_ratio_nonneg (a b : Q) : 0 <= seconds a / seconds b.
Proof.
  destruct (seconds_bounds a) as [Ha _], (seconds_bounds b) as [Hb _].
  apply Qle_shift_div_l.
  - apply Qlt_le_trans with (1 # 1000); [reflexivity | exact Hb].
  - rewrite Qmult_0_l. apply Qle_trans with (1 # 1000); [discriminate | exact Ha].
Qed.

Lemma bins_of_exact (sr bin half_width : Q) :
  bins_of sr bin half_width
    = Ok (Qtrunc (sr * seconds bin),
          (2 * Qfloor (seconds half_width / seconds bin) + 1)%Z).
Proof.
  unfold bins_of. simpl. rewrite bin_seconds_seconds, Q_clip_min_max.
  fold (seconds half_width).
  now rewrite (Qtrunc_floor _ (seconds_ratio_nonneg half_width bin)).
Qed.

Lemma oddify_odd (x : Z) : Z.odd (_oddify x) = true.
Proof.
  unfold _oddify. apply Z.odd_spec.
  pose proof (Z.div_mod x 2 ltac:(lia)) as Hx.
  pose proof (Z.mod_pos_bound x 2 ltac:(lia)) as Hm.
  destruct (x mod 2 =? 1)%Z eqn:E.
  - apply Z.eqb_eq in E. exists (x / 2)%Z. lia.
  - apply Z.eqb_neq in E. exists (x / 2)%Z. lia.
Qed.

Lemma oddify_of_odd (x : Z) : Z.odd x = true -> _oddify x = x.
Proof.
  intros Ho. unfold _oddify. apply Z.odd_spec in Ho as [k ->].
  replace ((2 * k + 1) mod 2)%Z with 1%Z; [reflexivity | ].
  apply Z.mod_unique with k; lia.
Qed.

Lemma on_select_odd_window {F : Type} `{Floating F}
    (k1 k2 : list Z -> Z -> Z -> result tensor)
    (sym : tensor -> tensor) (self : CorrelogramViewModel (F:=F))
    (clusters : list Z) :
  (∀ c b w, Z.odd w = true -> k1 c b w = k2 c b w) ->
  on_select k1 sym self clusters = on_select k2 sym self clusters.
Proof.
  intros Hk. unfold on_select. simpl.
  now rewrite (Hk _ _ _ (oddify_odd (winsize_bins self))).
Qed.

Lemma on_select_frame {F : Type} `{Floating F}
    (k : list Z -> Z -> Z -> result tensor) (sym : tensor -> tensor)
    (self self' : CorrelogramViewModel (F:=F)) (clusters : list Z) :
  on_select k sym self clusters = Ok self' ->
  binsize self' = binsize self ∧ winsize_bins self' = winsize_bins self
  ∧ _normalization self' = _normalization self
  ∧ List.filter is_kernel_call (calls self')
    = List.filter is_kernel_call (calls self)
        ++ [Correlograms clusters (binsize self) (_oddify (winsize_bins self))].
Proof.
  unfold on_select. intros Hs.
  apply bind_Ok in Hs as (ccgs & _ & Hs).
  apply bind_Ok in Hs as (a & _ & [= <-]). simpl. repeat split.
  rewrite !List.filter_app. simpl. now rewrite !app_nil_r.
Qed.

Lemma on_select_caches {F : Type} `{Floating F}
    (k : list Z -> Z -> Z -> result tensor) (sym : tensor -> tensor)
    (self self' : CorrelogramViewModel (F:=F)) (clusters : list Z) :
  on_select k sym self clusters = Ok self' ->
  ∃ ccgs, k clusters (binsize self) (_oddify (winsize_bins self)) = Ok ccgs
          ∧ _ccgs self' = Some (sym ccgs).
Proof.
  unfold on_select. intros Hs.
  apply bind_Ok in Hs as (ccgs & Hk & Hs).
  apply bind_Ok in Hs as (a & _ & [= <-]). exists ccgs. now split.
Qed.

Lemma select_frame {F : Type} `{Floating F}
    (k : list Z -> Z -> Z -> result tensor) (sym : tensor -> tensor)
    (self self' : CorrelogramViewModel (F:=F)) (ids : list Z) :
  select k sym self ids = Ok self' ->
  binsize self' = binsize self ∧ winsize_bins self' = winsize_bins self.
Proof.
  unfold select. intros Hs.
  apply on_select_frame in Hs as (Hb & Hw & _). simpl in Hb, Hw. now split.
Qed.

(** *** Binary64 arithmetic *)

Lemma f64_int_value (x : float) (z : Z) :
  f64_int x = Ok z <-> ∃ q, f64_value x = Some q ∧ z = Qtrunc q.
Proof.
  unfold f64_int, f64_value. destruct (Prim2SF x) as [s | s | | s m e]; simpl.
  - split; [intros [= <-]; eauto | intros (q & [= <-] & ->); reflexivity].
  - split; [discriminate | intros (q & [=] & _)].
  - split; [discriminate | intros (q & [=] & _)].
  - assert (Hv : (if s then (- (if (0 <=? e)%Z then Z.shiftl (Z.pos m) e
                                 else Z.shiftr (Z.pos m) (- e)))%Z
                  else (if (0 <=? e)%Z then Z.shiftl (Z.pos m) e
                        else Z.shiftr (Z.pos m) (- e)))
                 = Qtrunc (if s then - (if (0 <=? e)%Z then inject_Z (Z.pos m * 2 ^ e)
                                         else Z.pos m # 2 ^ Z.to_pos (- e))
                           else (if (0 <=? e)%Z then inject_Z (Z.pos m * 2 ^ e)
                                 else Z.pos m # 2 ^ Z.to_pos (- e)))).
    { destruct (0 <=? e)%Z eqn:He.
      - apply Z.leb_le in He. rewrite Z.shiftl_mul_pow2 by exact He.
        destruct s; unfold Qtrunc; simpl; rewrite Z.quot_1_r; reflexivity.
      - apply Z.leb_gt in He. rewrite Z.shiftr_div_pow2 by lia.
        assert (Hp : Z.pos (2 ^ Z.to_pos (- e)) = (2 ^ (- e))%Z).
        { rewrite Pos2Z.inj_pow. f_equal. lia. }
        destruct s; unfold Qtrunc; simpl; rewrite Hp.
        + change (Z.neg m) with (- Z.pos m)%Z.
          rewrite Z.quot_opp_l by lia. f_equal.
          symmetry. apply Z.quot_div_nonneg; lia.
        + symmetry. apply Z.quot_div_nonneg; lia. }
    split; [intros [= <-]; eexists; split; [reflexivity | exact Hv]
           | intros (q & [= <-] & ->); now rewrite Hv].
Qed.

Lemma sf_nonneg_value (x : spec_float) (q : Q) :
  sf_nonneg x = true -> sf_value x = Some q -> 0 <= q.
Proof.
  destruct x as [s | s | | s m e]; simpl; try discriminate.
  - intros _ [= <-]. apply Qle_refl.
  - destruct s; [discriminate | ]. intros _ [= <-].
    destruct (0 <=? e)%Z eqn:He.
    + apply Z.leb_le in He. rewrite <- (Zle_Qle 0). nia.
    + unfold Qle. simpl. lia.
Qed.

Lemma binary_round_aux_sign (m e : Z) (l : location) :
  binary_round_aux prec emax false m e l = S754_nan
  ∨ sf_nonneg (binary_round_aux prec emax false m e l) = true.
Proof.
  unfold binary_round_aux.
  destruct (shr_fexp prec emax m e l) as [mrs' e'].
  destruct (shr_fexp prec emax _ e' loc_Exact) as [mrs'' e''].
  destruct (shr_m mrs''); [right; reflexivity | | left; reflexivity].
  destruct (e'' <=? emax - prec)%Z; right; reflexivity.
Qed.

Lemma SF64div_nonneg (x y : spec_float) :
  sf_pos x = true -> sf_pos y = true ->
  SF64div x y = S754_nan ∨ sf_nonneg (SF64div x y) = true.
Proof.
  unfold SF64div, SFdiv.
  destruct x as [sx | sx | | [ | ] mx ex]; try discriminate.
  destruct y as [sy | sy | | [ | ] my ey]; try discriminate.
  intros _ _. simpl.
  destruct (SFdiv_core_binary prec emax (Z.pos mx) ex (Z.pos my) ey) as [[mz ez] lz].
  apply binary_round_aux_sign.
Qed.

Lemma SF64mul_nonneg (x y : spec_float) :
  sf_nonneg x = true -> sf_pos y = true ->
  SF64mul x y = S754_nan ∨ sf_nonneg (SF64mul x y) = true.
Proof.
  unfold SF64mul, SFmul.
  destruct y as [sy | sy | | [ | ] my ey]; try discriminate.
  destruct x as [sx | [ | ] | | [ | ] mx ex]; try discriminate; intros _ _; simpl.
  - now right.
  - now right.
  - apply binary_round_aux_sign.
Qed.

(** Clamping to [[.001, 1e6]] in binary64: the result is not below [.001]
    and not above [1e6] (for the comparison of floats), and it is a
    positive number unless it is NaN. *)
Lemma bin_seconds_clamped (x : float) :
  f_ltb (bin_seconds x) f_milli = false
  ∧ f_ltb f_mega (bin_seconds x) = false
  ∧ (Prim2SF (bin_seconds x) = S754_nan
     ∨ sf_pos (Prim2SF (bin_seconds x)) = true).
Proof.
  unfold bin_seconds, f_clip, f_min, f_max. simpl.
  set (y := (x * 0.001)%float).
  destruct (y <? 0.001)%float eqn:H1.
  - change (1000000 <? 0.001)%float with false. cbv iota.
    split; [reflexivity | ]. split; [reflexivity | right; reflexivity].
  - destruct (1000000 <? y)%float eqn:H2.
    + split; [reflexivity | ]. split; [reflexivity | right; reflexivity].
    + split; [exact H1 | ]. split; [exact H2 | ].
      rewrite ltb_spec in H1, H2.
      assert (Hlo : ∃ m e, Prim2SF 0.001 = S754_finite false m e)
        by (eexists _, _; vm_compute; reflexivity).
      assert (Hhi : ∃ m e, Prim2SF 1000000 = S754_finite false m e)
        by (eexists _, _; vm_compute; reflexivity).
      destruct Hlo as (ml & el & Hlo), Hhi as (mh & eh & Hhi).
      rewrite Hlo in H1. rewrite Hhi in H2. unfold SFltb in H1, H2.
      destruct (Prim2SF y) as [s | s | | s m e]; simpl in *.
      * discriminate.
      * destruct s; discriminate.
      * now left.
      * destruct s; [discriminate | now right].
Qed.

Lemma bins_of_unfold (sr bin half_width : float) :
  bins_of sr bin half_width
  = bind (f64_int (sr * bin_seconds bin)%float)
      (fun b => bind (f64_int (bin_seconds half_width / bin_seconds bin)%float)
                  (fun k => Ok (b, (2 * k + 1)%Z))).
Proof. reflexivity. Qed.

(** [bins_of] in binary64 succeeds exactly when the product and the
    quotient it converts are finite, and then truncates their values. *)
Lemma bins_of_binary64 (sr bin half_width : float) (b w : Z) :
  bins_of sr bin half_width = Ok (b, w)
  <-> ∃ p q,
        f64_value (sr * bin_seconds bin)%float = Some p
        ∧ f64_value (bin_seconds half_width / bin_seconds bin)%float = Some q
        ∧ b = Qtrunc p ∧ w = (2 * Qtrunc q + 1)%Z.
Proof.
  rewrite bins_of_unfold.
  split.
  - intros Hb. apply bind_Ok in Hb as (b' & Hp & Hb).
    apply bind_Ok in Hb as (k & Hq & [= <- <-]).
    apply f64_int_value in Hp as (p & Hp & ->).
    apply f64_int_value in Hq as (q & Hq & ->).
    exists p, q. auto.
  - intros (p & q & Hp & Hq & -> & ->).
    assert (H1 : f64_int (sr * bin_seconds bin) = Ok (Qtrunc p))
      by (apply f64_int_value; eauto).
    assert (H2 : f64_int (bin_seconds half_width / bin_seconds bin) = Ok (Qtrunc q))
      by (apply f64_int_value; eauto).
    rewrite H1. cbn [bind]. rewrite H2. reflexivity.
Qed.

Lemma quotient_of_seconds_nonneg (half_width bin : float) (q : Q) :
  f64_value (bin_seconds half_width / bin_seconds bin)%float = Some q -> 0 <= q.
Proof.
  unfold f64_value. rewrite div_spec.
  destruct (bin_seconds_clamped half_width) as (_ & _ & [Hn | Hh]).
  { rewrite Hn. simpl. discriminate. }
  destruct (bin_seconds_clamped bin) as (_ & _ & [Hn | Hb]).
  { rewrite Hn. destruct (Prim2SF (bin_seconds half_width)); simpl; discriminate. }
  destruct (SF64div_nonneg _ _ Hh Hb) as [Hn | Hpos].
  - rewrite Hn. discriminate.
  - now apply sf_nonneg_value.
Qed.

Lemma value_nonneg_sf (x : spec_float) (s : Q) :
  sf_value x = Some s -> 0 <= s -> sf_nonneg x = true.
Proof.
  destruct x as [sx | sx | | sx m e]; simpl; try discriminate; [reflexivity | ].
  destruct sx; [ | reflexivity]. intros [= <-] Hs. exfalso.
  destruct (0 <=? e)%Z eqn:He.
  - apply Z.leb_le in He. revert Hs. unfold Qle. simpl.
    pose proof (Z.pow_pos_nonneg 2 e ltac:(lia) He). nia.
  - revert Hs. unfold Qle. simpl. lia.
Qed.

Lemma product_with_seconds_nonneg (sr bin : float) (s p : Q) :
  f64_value sr = Some s -> 0 <= s ->
  f64_value (sr * bin_seconds bin)%float = Some p -> 0 <= p.
Proof.
  unfold f64_value. intros Hs Hs0. rewrite mul_spec.
  pose proof (value_nonneg_sf _ _ Hs Hs0) as Hsr.
  destruct (bin_seconds_clamped bin) as (_ & _ & [Hn | Hb]).
  { rewrite Hn. destruct (Prim2SF sr); simpl; discriminate. }
  destruct (SF64mul_nonneg _ _ Hsr Hb) as [Hn | Hpos].
  - rewrite Hn. discriminate.
  - now apply sf_nonneg_value.
Qed.

Section ChangeBins.
Context {F : Type} `{Floating F}.
Variable k : list Z -> Z -> Z -> result tensor.
Variable sym : tensor -> tensor.

Lemma bins_of_window_odd (sr bin half_width : F) (b w : Z) :
  bins_of sr bin half_width = Ok (b, w) -> Z.odd w = true ∧ _oddify w = w.
Proof.
  unfold bins_of. intros Hb. apply bind_Ok in Hb as (b' & _ & Hb).
  apply bind_Ok in Hb as (q & _ & [= _ <-]).
  assert (Ho : Z.odd (2 * q + 1) = true)
    by (rewrite Z.add_comm, Z.odd_add_mul_2; reflexivity).
  split; [exact Ho | now apply oddify_of_odd].
Qed.

(** [change_bins] when the bins can be computed, the kernel answers and its
    symmetrized answer can be normalized: the state it leaves. *)
Lemma change_bins_runs (self : CorrelogramViewModel (F:=F)) (bin half_width : F)
    (b w : Z) (ccgs : tensor) (a : option ndarray) :
  bins_of (sample_rate self) bin half_width = Ok (b, w) ->
  k (cluster_ids self) b w = Ok ccgs ->
  _normalize self (Some (sym ccgs)) = Ok a ->
  change_bins k sym self bin half_width
  = Ok {| sample_rate := sample_rate self; cluster_ids := cluster_ids self;
          binsize := b; winsize_bins := w;
          _normalization := _normalization self; _ccgs := Some (sym ccgs);
          calls := calls self
                   ++ [SelectorSelect (cluster_ids self); UpdateSpikeClusters;
                       ViewUpdate; ViewSetClusterIds (cluster_ids self);
                       Correlograms (cluster_ids self) b w;
                       ViewSetCorrelograms a;
                       VisualSetClusterOrder (cluster_ids self); ViewUpdate] |}.
Proof.
  intros Hb Hk Ha. unfold change_bins. rewrite Hb. cbn [bind fst snd].
  destruct (bins_of_window_odd _ _ _ _ _ Hb) as [_ Hodd].
  unfold select, on_select.
  cbn [set_bins emit binsize winsize_bins cluster_ids sample_rate _normalization
       _ccgs calls].
  rewrite Hodd, Hk. cbn [bind].
  match goal with
  | |- bind ?m _ = _ => assert (Hn : m = Ok a)
  end.
  { rewrite <- Ha. unfold _normalize. reflexivity. }
  rewrite Hn. cbn [bind]. unfold emit. cbn. f_equal. f_equal.
  rewrite <- !app_assoc. reflexivity.
Qed.

(** What a successful [change_bins] has done. *)
Lemma change_bins_result (self self' : CorrelogramViewModel (F:=F))
    (bin half_width : F) :
  change_bins k sym self bin half_width = Ok self' ->
  ∃ b w ccgs,
    bins_of (sample_rate self) bin half_width = Ok (b, w)
    ∧ k (cluster_ids self) b w = Ok ccgs
    ∧ binsize self' = b ∧ winsize_bins self' = w
    ∧ _ccgs self' = Some (sym ccgs)
    ∧ List.filter is_kernel_call (calls self')
      = List.filter is_kernel_call (calls self)
          ++ [Correlograms (cluster_ids self) b w].
Proof.
  unfold change_bins. intros Hc. apply bind_Ok in Hc as ([b w] & Hb & Hc).
  cbn [fst snd] in Hc.
  destruct (bins_of_window_odd _ _ _ _ _ Hb) as [_ Hodd].
  unfold select in Hc.
  pose proof (on_select_frame _ _ _ _ _ Hc) as (Hbs & Hws & _ & Hcalls).
  pose proof (on_select_caches _ _ _ _ _ Hc) as (ccgs & Hk & Hcache).
  cbn [set_bins binsize winsize_bins cluster_ids calls] in *.
  rewrite Hodd in *.
  exists b, w, ccgs. repeat split; try assumption.
  rewrite Hcalls, List.filter_app. simpl. now rewrite app_nil_r.
Qed.

End ChangeBins.

(** In binary64 the bins can differ from those of exact arithmetic: the
    product 25000 * 0.073 is rounded below 1825, and the quotient
    0.045 / 0.00225 below 20. *)
Example bins_binary64_differ_from_exact :
  bins_of (F:=float) 25000%float 73%float 20.5%float = Ok (1824, 1)%Z
  ∧ bins_of (F:=Q) 25000 73 (205 # 10) = Ok (1825, 1)%Z
  ∧ bins_of (F:=float) 20000%float 2.25%float 45%float = Ok (45, 39)%Z
  ∧ bins_of (F:=Q) 20000 (225 # 100) 45 = Ok (45, 41)%Z.
Proof. repeat split; vm_compute; reflexivity. Qed.

(** C3: in binary64, as the code computes, [change_bins] sets
    [winsize_bins = 2 * floor(half_width_seconds / bin_seconds) + 1], where
    both durations are the milliseconds times [.001] clamped to
    [[.001, 1e6]] and the quotient is their binary64 quotient, which is not
    negative; that number is odd, it is stored in the view model, and it is
    the window that the histogram kernel receives.  The window handed to the
    kernel is always [_oddify(self.winsize_bins)], odd whatever integer
    [winsize_bins] holds (computed or restored).  From restored bins
    [(7, 9)], [change_bins(1.0, 20.5)] at a sample rate of 20000 leaves
    [binsize = 20] and [winsize_bins = 41] and calls the kernel with them. *)
Theorem change_bins_window :
  (∀ (sr bin half_width : float) (b w : Z),
     bins_of sr bin half_width = Ok (b, w) ->
     ∃ q, f64_value (bin_seconds half_width / bin_seconds bin)%float = Some q
          ∧ 0 <= q
          ∧ w = (2 * Qfloor q + 1)%Z
          ∧ Z.odd w = true
          ∧ f_ltb (bin_seconds half_width) f_milli = false
          ∧ f_ltb f_mega (bin_seconds half_width) = false
          ∧ f_ltb (bin_seconds bin) f_milli = false
          ∧ f_ltb f_mega (bin_seconds bin) = false)
  ∧ (∀ (sr bin half_width : float) (p q : Q),
       f64_value (sr * bin_seconds bin)%float = Some p ->
       f64_value (bin_seconds half_width / bin_seconds bin)%float = Some q ->
       bins_of sr bin half_width = Ok (Qtrunc p, (2 * Qfloor q + 1)%Z))
  ∧ (∀ k sym (self : CorrelogramViewModel (F:=float)) bin half_width b w ccgs a,
       bins_of (sample_rate self) bin half_width = Ok (b, w) ->
       k (cluster_ids self) b w = Ok ccgs ->
       _normalize self (Some (sym ccgs)) = Ok a ->
       change_bins k sym self bin half_width
       = Ok {| sample_rate := sample_rate self; cluster_ids := cluster_ids self;
               binsize := b; winsize_bins := w;
               _normalization := _normalization self;
               _ccgs := Some (sym ccgs);
               calls := calls self
                        ++ [SelectorSelect (cluster_ids self); UpdateSpikeClusters;
                            ViewUpdate; ViewSetClusterIds (cluster_ids self);
                            Correlograms (cluster_ids self) b w;
                            ViewSetCorrelograms a;
                            VisualSetClusterOrder (cluster_ids self);
                            ViewUpdate] |})
  ∧ (∀ k sym (self self' : CorrelogramViewModel (F:=float)) bin half_width,
       change_bins k sym self bin half_width = Ok self' ->
       ∃ b w q,
         bins_of (sample_rate self) bin half_width = Ok (b, w)
         ∧ f64_value (bin_seconds half_width / bin_seconds bin)%float = Some q
         ∧ winsize_bins self' = (2 * Qfloor q + 1)%Z
         ∧ binsize self' = b
         ∧ List.filter is_kernel_call (calls self')
           = List.filter is_kernel_call (calls self)
               ++ [Correlograms (cluster_ids self) b (2 * Qfloor q + 1)%Z])
  ∧ (∀ w, Z.odd (_oddify w) = true)
  ∧ (∀ k sym (self self' : CorrelogramViewModel (F:=float)) clusters,
       on_select k sym self clusters = Ok self' ->
       List.filter is_kernel_call (calls self')
       = List.filter is_kernel_call (calls self)
           ++ [Correlograms clusters (binsize self) (_oddify (winsize_bins self))])
  ∧ (∀ k1 k2 sym (self : CorrelogramViewModel (F:=float)) clusters,
       (∀ c b w, Z.odd w = true -> k1 c b w = k2 c b w) ->
       on_select k1 sym self clusters = on_select k2 sym self clusters)
  ∧ ∃ self',
      change_bins example_kernel (fun t => t) restored_view_model64
        1%float 20.5%float = Ok self'
      ∧ binsize self' = 20%Z ∧ winsize_bins self' = 41%Z
      ∧ List.filter is_kernel_call (calls self')
        = [Correlograms [2; 5]%Z 20%Z 41%Z].
Proof.
  assert (Hwin : ∀ (sr bin half_width : float) (b w : Z),
            bins_of sr bin half_width = Ok (b, w) ->
            ∃ q, f64_value (bin_seconds half_width / bin_seconds bin)%float = Some q
                 ∧ 0 <= q ∧ w = (2 * Qfloor q + 1)%Z).
  { intros sr bin half_width b w Hb.
    apply bins_of_binary64 in Hb as (p & q & _ & Hq & _ & ->).
    pose proof (quotient_of_seconds_nonneg _ _ _ Hq) as Hq0.
    exists q. split; [exact Hq | ]. split; [exact Hq0 | ].
    now rewrite (Qtrunc_floor _ Hq0). }
  split; [ | split; [ | split; [ | split; [ | split; [ | split; [ | split]]]]]].
  - intros sr bin half_width b w Hb.
    destruct (Hwin _ _ _ _ _ Hb) as (q & Hq & Hq0 & Hw).
    destruct (bins_of_window_odd _ _ _ _ _ Hb) as [Hodd _].
    destruct (bin_seconds_clamped half_width) as (Hh1 & Hh2 & _).
    destruct (bin_seconds_clamped bin) as (Hb1 & Hb2 & _).
    exists q. repeat split; assumption.
  - intros sr bin half_width p q Hp Hq.
    pose proof (quotient_of_seconds_nonneg _ _ _ Hq) as Hq0.
    rewrite <- (Qtrunc_floor _ Hq0). apply bins_of_binary64. eauto 6.
  - intros k sym self bin half_width b w ccgs a. apply change_bins_runs.
  - intros k sym self self' bin half_width Hc.
    apply change_bins_result in Hc as (b & w & ccgs & Hb & _ & Hbs & Hws & _ & Hcalls).
    destruct (Hwin _ _ _ _ _ Hb) as (q & Hq & _ & Hw).
    exists b, w, q. rewrite <- Hw. auto.
  - exact oddify_odd.
  - intros k sym self self' clusters Hs.
    now destruct (on_select_frame k sym self self' clusters Hs) as (_ & _ & _ & Hc).
  - intros k1 k2 sym self clusters. apply on_select_odd_window.
  - eexists. split; [vm_compute; reflexivity | ].
    repeat split; vm_compute; reflexivity.
Qed.

Lemma change_bins_window_witness :
  bins_of (F:=float) 20000%float 2%float 20.5%float = Ok (40, 21)%Z
  ∧ (∃ q, f64_value (bin_seconds 20.5 / bin_seconds 2)%float = Some q
          ∧ 0 <= q ∧ 21%Z = (2 * Qfloor q + 1)%Z)
  ∧ (∃ a,
       _normalize restored_view_model64
         (Some [[repeat 0%Z 21; repeat 0%Z 21]; [repeat 0%Z 21; repeat 0%Z 21]])
       = Ok a
       ∧ ∃ self',
           change_bins example_kernel (fun t => t) restored_view_model64
             2%float 20.5%float = Ok self'
           ∧ binsize self' = 40%Z ∧ winsize_bins self' = 21%Z)
  ∧ (∀ c b w, Z.odd w = true -> example_kernel c b w = odd_only_kernel c b w)
  ∧ on_select example_kernel (fun t => t) restored_view_model64 [2; 5]%Z
    = on_select odd_only_kernel (fun t => t) restored_view_model64 [2; 5]%Z.
Proof.
  assert (Hb : bins_of (F:=float) 20000%float 2%float 20.5%float = Ok (40, 21)%Z)
    by (vm_compute; reflexivity).
  assert (Hk : ∀ c b w, Z.odd w = true ->
                 example_kernel c b w = odd_only_kernel c b w).
  { intros c b w Hw. unfold odd_only_kernel. now rewrite Hw. }
  destruct change_bins_window as (H1 & _ & H3 & _ & _ & _ & H7 & _).
  split; [exact Hb | ]. split; [ | split; [ | split; [exact Hk | ]]].
  - destruct (H1 _ _ _ _ _ Hb) as (q & Hq & Hq0 & Hw & _). eauto.
  - assert (Hn : ∃ a, _normalize restored_view_model64
                (Some [[repeat 0%Z 21; repeat 0%Z 21];
                       [repeat 0%Z 21; repeat 0%Z 21]]) = Ok a)
      by (eexists; vm_compute; reflexivity).
    destruct Hn as [a Ha].
    exists a. split; [exact Ha | ]. eexists.
    split; [exact (H3 example_kernel (fun t => t) restored_view_model64
                     2%float 20.5%float 40%Z 21%Z _ a Hb eq_refl Ha) | ].
    split; reflexivity.
  - exact (H7 example_kernel odd_only_kernel (fun t => t) restored_view_model64
             [2; 5]%Z Hk).
Defined.

(** C4, as the specification states it, fails on the code: at a sample rate
    of 20000 and a bin of 1.03 ms the binary64 product is
    20.600000000000001, whose nearest integer is 21, while [change_bins]
    leaves [binsize = 20] (from restored bins [(7, 9)]); in exact arithmetic
    the product is 20.6 and the result the same. *)
Lemma change_bins_does_not_round :
  (∃ self' p,
     change_bins example_kernel (fun t => t) restored_view_model64
       1.03%float 20.5%float = Ok self'
     ∧ binsize self' = 20%Z
     ∧ f64_value (20000 * bin_seconds 1.03)%float = Some p
     ∧ round_nearest p = 21%Z)
  ∧ bins_of (F:=float) 20000%float 1.03%float 20.5%float = Ok (20, 39)%Z
  ∧ bins_of (F:=Q) 20000 (103 # 100) (205 # 10) = Ok (20, 39)%Z
  ∧ 20000 * seconds (103 # 100) == 206 # 10
  ∧ round_nearest (20000 * seconds (103 # 100)) = 21%Z.
Proof.
  split.
  - eexists _, _. split; [vm_compute; reflexivity | ].
    split; [reflexivity | ]. split; [vm_compute; reflexivity | ].
    vm_compute. reflexivity.
  - repeat split; vm_compute; reflexivity.
Qed.

(** C4, amended: in binary64, as the code computes, [change_bins] sets the
    bin width in samples to [int(sample_rate * bin_seconds)]: the binary64
    product truncated towards zero (not rounded to the nearest integer),
    where [bin_seconds] is the bin in milliseconds times [.001], clamped to
    [[.001, 1e6]].  For a sample rate that is not negative the product is
    not negative and [binsize] is its floor, the largest integer not above
    it.  The value is stored in the view model and handed to the kernel. *)
Theorem change_bins_binsize :
  (∀ (sr bin half_width : float) (b w : Z),
     bins_of sr bin half_width = Ok (b, w) ->
     ∃ p, f64_value (sr * bin_seconds bin)%float = Some p
          ∧ b = Qtrunc p
          ∧ f_ltb (bin_seconds bin) f_milli = false
          ∧ f_ltb f_mega (bin_seconds bin) = false
          ∧ ∀ s, f64_value sr = Some s -> 0 <= s ->
              0 <= p ∧ b = Qfloor p
              ∧ inject_Z b <= p ∧ p < inject_Z (b + 1))
  ∧ (∀ (sr bin half_width : float) (p q : Q),
       f64_value (sr * bin_seconds bin)%float = Some p ->
       f64_value (bin_seconds half_width / bin_seconds bin)%float = Some q ->
       ∃ w, bins_of sr bin half_width = Ok (Qtrunc p, w))
  ∧ (∀ k sym (self : CorrelogramViewModel (F:=float)) bin half_width b w ccgs a,
       bins_of (sample_rate self) bin half_width = Ok (b, w) ->
       k (cluster_ids self) b w = Ok ccgs ->
       _normalize self (Some (sym ccgs)) = Ok a ->
       ∃ self',
         change_bins k sym self bin half_width = Ok self'
         ∧ binsize self' = b)
  ∧ (∀ k sym (self self' : CorrelogramViewModel (F:=float)) bin half_width,
       change_bins k sym self bin half_width = Ok self' ->
       ∃ p w,
         f64_value (sample_rate self * bin_seconds bin)%float = Some p
         ∧ binsize self' = Qtrunc p
         ∧ List.filter is_kernel_call (calls self')
           = List.filter is_kernel_call (calls self)
               ++ [Correlograms (cluster_ids self) (Qtrunc p) w]).
Proof.
  split; [ | split; [ | split]].
  - intros sr bin half_width b w Hb.
    apply bins_of_binary64 in Hb as (p & q & Hp & _ & -> & _).
    destruct (bin_seconds_clamped bin) as (Hb1 & Hb2 & _).
    exists p. split; [exact Hp | ]. split; [reflexivity | ].
    split; [exact Hb1 | ]. split; [exact Hb2 | ].
    intros s Hs Hs0.
    pose proof (product_with_seconds_nonneg _ _ _ _ Hs Hs0 Hp) as Hp0.
    rewrite (Qtrunc_floor _ Hp0).
    split; [exact Hp0 | ]. split; [reflexivity | ].
    split; [apply Qfloor_le | apply Qlt_floor].
  - intros sr bin half_width p q Hp Hq. eexists.
    apply bins_of_binary64. eauto 6.
  - intros k sym self bin half_width b w ccgs a Hb Hk Ha.
    eexists. split; [exact (change_bins_runs k sym self bin half_width b w ccgs a Hb Hk Ha) | ].
    reflexivity.
  - intros k sym self self' bin half_width Hc.
    apply change_bins_result in Hc as (b & w & ccgs & Hb & _ & Hbs & _ & _ & Hcalls).
    apply bins_of_binary64 in Hb as (p & q & Hp & _ & -> & _).
    exists p, w. auto.
Qed.

Lemma change_bins_binsize_witness :
  bins_of (F:=float) 20000%float 1.03%float 20.5%float = Ok (20, 39)%Z
  ∧ (∃ s p,
       f64_value 20000%float = Some s ∧ s == 20000 ∧ 0 <= s
       ∧ f64_value (20000 * bin_seconds 1.03)%float = Some p
       ∧ 0 <= p ∧ 20%Z = Qfloor p
       ∧ inject_Z 20 <= p ∧ p < inject_Z (20 + 1))
  ∧ ∃ self',
      change_bins example_kernel (fun t => t) restored_view_model64
        1.03%float 20.5%float = Ok self'
      ∧ binsize restored_view_model64 = 7%Z
      ∧ binsize self' = 20%Z.
Proof.
  assert (Hb : bins_of (F:=float) 20000%float 1.03%float 20.5%float = Ok (20, 39)%Z)
    by (vm_compute; reflexivity).
  assert (Hv : ∃ s, f64_value 20000%float = Some s ∧ s == 20000 ∧ 0 <= s).
  { eexists. split; [vm_compute; reflexivity | ]. split; [reflexivity | discriminate]. }
  destruct change_bins_binsize as (H1 & _ & H3 & _).
  split; [exact Hb | ]. split.
  - destruct Hv as (s & Hs & Heq & Hs0).
    destruct (H1 _ _ _ _ _ Hb) as (p & Hp & _ & _ & _ & Hfloor).
    exists s, p. split; [exact Hs | ]. split; [exact Heq | ]. split; [exact Hs0 | ].
    split; [exact Hp | ]. exact (Hfloor s Hs Hs0).
  - assert (Hn : ∃ a, _normalize restored_view_model64
                (Some [[repeat 0%Z 39; repeat 0%Z 39];
                       [repeat 0%Z 39; repeat 0%Z 39]]) = Ok a)
      by (eexists; vm_compute; reflexivity).
    destruct Hn as [a Ha].
    destruct (H3 example_kernel (fun t => t) restored_view_model64
                1.03%float 20.5%float 20%Z 39%Z _ a Hb eq_refl Ha)
      as (self' & Hrun & Hbs).
    exists self'. split; [exact Hrun | ]. split; [reflexivity | exact Hbs].
Defined.

End Bins.

(** ** The normalization of the correlograms *)

Section Normalization.
Local Open Scope Q_scope.

Lemma fold_max_spec (a : list Z) (x : Z) :
  (x <= fold_left Z.max a x)%Z
  ∧ (∀ y, y ∈ a -> (y <= fold_left Z.max a x)%Z)
  ∧ fold_left Z.max a x ∈ x :: a.
Proof.
  revert x. induction a as [ | z a IH]; intros x; simpl.
  - split; [lia | ]. split; [ | apply list_elem_of_here].
    intros y Hy. inversion Hy.
  - destruct (IH (Z.max x z)) as (Hle & Hall & Hin).
    split; [lia | ]. split.
    + intros y Hy. apply elem_of_cons in Hy as [-> | Hy]; [lia | now apply Hall].
    + apply elem_of_cons in Hin as [Heq | Hin].
      * rewrite Heq. destruct (Z.max_spec x z) as [[_ ->] | [_ ->]].
        -- apply list_elem_of_further, list_elem_of_here.
        -- apply list_elem_of_here.
      * now do 2 apply list_elem_of_further.
Qed.

Lemma maximum_is_max (a : list Z) : a ≠ [] -> is_max (maximum a) a.
Proof.
  destruct a as [ | x a]; [congruence | intros _].
  destruct (fold_max_spec a x) as (Hle & Hall & Hin). split; [exact Hin | ].
  intros y Hy. apply elem_of_cons in Hy as [-> | Hy]; [exact Hle | now apply Hall].
Qed.

Lemma array_max_maximum (a : list Z) : a ≠ [] -> array_max a = Ok (maximum a).
Proof. destruct a; [congruence | reflexivity]. Qed.

Lemma mapM_map {A B : Type} (f : A -> result B) (g : A -> B) (l : list A) :
  Forall (fun x => f x = Ok (g x)) l -> mapM f l = Ok (map g l).
Proof.
  induction 1 as [ | x l Hx _ IH]; simpl; [reflexivity | ].
  now rewrite Hx, IH.
Qed.

Lemma entry_map {A B : Type} (f : A -> B) (t : list (list (list A))) (i j k : nat) :
  entry (map (map (map f)) t) i j k = f <$> entry t i j k.
Proof.
  unfold entry. change (map (map (map f)) t) with (map (map f) <$> t).
  rewrite list_lookup_fmap. destruct (t !! i) as [row | ]; simpl; [ | reflexivity].
  change (map (map f) row) with (map f <$> row).
  rewrite list_lookup_fmap. destruct (row !! j) as [sl | ]; simpl; [ | reflexivity].
  apply (list_lookup_fmap f sl k).
Qed.

Lemma entry_elem_of {A : Type} (t : list (list (list A))) (i j k : nat) (x : A) :
  entry t i j k = Some x -> x ∈ concat (concat t).
Proof.
  unfold entry. intros Hx.
  destruct (t !! i) as [row | ] eqn:Hi; simpl in Hx; [ | discriminate].
  destruct (row !! j) as [sl | ] eqn:Hj; simpl in Hx; [ | discriminate].
  apply list_elem_of_In, in_concat. exists sl. split.
  - apply in_concat. exists row. split; apply list_elem_of_In;
      eapply list_elem_of_lookup_2; eassumption.
  - apply list_elem_of_In. eapply list_elem_of_lookup_2; eassumption.
Qed.

Lemma has_shape_nonempty {A : Type} (n1 n2 n3 : nat) (t : list (list (list A))) :
  (0 < n1)%nat -> (0 < n2)%nat -> (0 < n3)%nat -> has_shape n1 n2 n3 t ->
  concat (concat t) ≠ [].
Proof.
  intros H1 H2 H3 [Hlen Hrows].
  destruct t as [ | row t]; simpl in Hlen; [lia | ].
  apply Forall_cons in Hrows as [[Hrow Hsl] _].
  destruct row as [ | sl row]; simpl in Hrow; [lia | ].
  apply Forall_cons in Hsl as [Hsl _].
  destruct sl as [ | x sl]; simpl in Hsl; [lia | ].
  simpl. discriminate.
Qed.

Lemma has_shape_slice {A : Type} (n1 n2 n3 : nat) (t : list (list (list A)))
    (i j : nat) (sl : list A) :
  has_shape n1 n2 n3 t -> lag_slice t i j = Some sl -> length sl = n3.
Proof.
  intros [_ Hrows]. unfold lag_slice. intros Hs.
  destruct (t !! i) as [row | ] eqn:Hi; simpl in Hs; [ | discriminate].
  rewrite Forall_lookup in Hrows. destruct (Hrows i row Hi) as [_ Hsl].
  rewrite Forall_lookup in Hsl. exact (Hsl j sl Hs).
Qed.

(** The divisor [max(1., m)]: at least 1, and multiplying by its inverse is
    dividing by it. *)
Lemma divisor_floor (m : Z) : 1 <= Qmax 1 (inject_Z m).
Proof. apply Q.le_max_l. Qed.

Lemma scale_divide (x m : Z) :
  inject_Z x * (1 / Qmax 1 (inject_Z m)) == inject_Z x / Qmax 1 (inject_Z m).
Proof. unfold Qdiv. ring. Qed.

Lemma scale_le_1 (x m : Z) :
  (x <= m)%Z -> inject_Z x * (1 / Qmax 1 (inject_Z m)) <= 1.
Proof.
  intros Hle. rewrite scale_divide. apply Qle_shift_div_r.
  - apply Qlt_le_trans with 1; [reflexivity | apply divisor_floor].
  - rewrite Qmult_1_l. apply Qle_trans with (inject_Z m).
    + now rewrite <- Zle_Qle.
    + apply Q.le_max_r.
Qed.

Lemma Q_scale (c : Q) (x : Z) : scale c x = inject_Z x * c.
Proof. reflexivity. Qed.

Lemma Q_f_max (a b : Q) : f_max a b = Qmax a b.
Proof.
  unfold f_max, Qmax, GenericMinMax.gmax. simpl. now destruct (a ?= b).
Qed.

Section AnyFloat.
Context {F : Type} `{Floating F}.

Lemma normalize_independent (n1 n2 n3 : nat) (t : tensor) :
  (0 < n3)%nat -> has_shape n1 n2 n3 t ->
  mapM (mapM normalize_slice) t
    = Ok (map (map (fun sl => map (scale (inverse_divisor (maximum sl))) sl)) t).
Proof.
  intros H3 [_ Hrows]. apply mapM_map.
  eapply Forall_impl; [exact Hrows | ]. intros row [_ Hsl]. apply mapM_map.
  eapply Forall_impl; [exact Hsl | ]. intros sl Hlen. unfold normalize_slice.
  rewrite array_max_maximum; [reflexivity | ].
  intros ->. simpl in Hlen. lia.
Qed.

Lemma normalize_total (self : CorrelogramViewModel (F:=F)) (n1 n2 n3 : nat)
    (t : tensor) :
  (0 < n2)%nat -> (0 < n3)%nat -> has_shape n1 n2 n3 t ->
  ∃ a, _normalize self (Some t) = Ok a.
Proof.
  intros H2 H3 Hshape. unfold _normalize.
  destruct (Nat.eqb (length t) 0) eqn:Hlen; [eauto | ].
  apply Nat.eqb_neq in Hlen.
  destruct (String.eqb (_normalization self) "equal").
  - rewrite array_max_maximum; [simpl; eauto | ].
    apply (has_shape_nonempty n1 n2 n3); try assumption.
    destruct Hshape as [<- _]. lia.
  - destruct (String.eqb (_normalization self) "independent"); [ | eauto].
    rewrite (normalize_independent n1 n2 n3 t H3 Hshape). simpl. eauto.
Qed.

(** Mode ['equal'] scales every entry by one scalar, whatever the
    representation of floats. *)
Lemma normalize_equal_any_float (self : CorrelogramViewModel (F:=F))
    (n1 n2 n3 : nat) (t : tensor) :
  (0 < n1)%nat -> (0 < n2)%nat -> (0 < n3)%nat -> has_shape n1 n2 n3 t ->
  _normalization self = "equal" ->
  _normalize self (Some t)
    = Ok (Some (FloatArray
        (map (map (map (scale (inverse_divisor (maximum (concat (concat t)))))))
           t))).
Proof.
  intros H1 H2 H3 Hshape Hmode. unfold _normalize.
  replace (Nat.eqb (length t) 0) with false.
  - rewrite Hmode. simpl.
    now rewrite (array_max_maximum _ (has_shape_nonempty n1 n2 n3 t H1 H2 H3 Hshape)).
  - symmetry. apply Nat.eqb_neq. destruct Hshape as [-> _]. lia.
Qed.

(** C10: on a tensor that is not empty, a normalization mode other than
    ['equal'] and ['independent'] makes [_normalize] return [None], neither
    its input nor a normalized copy; on an empty tensor ([len(ccgs) == 0])
    it returns its input unchanged, whatever the mode. *)
Theorem normalize_other_mode (self : CorrelogramViewModel (F:=F)) (t : tensor) :
  (length t ≠ 0%nat -> _normalization self ≠ "equal" ->
   _normalization self ≠ "independent" ->
   _normalize self (Some t) = Ok None)
  ∧ (length t = 0%nat -> _normalize self (Some t) = Ok (Some (IntArray t))).
Proof.
  unfold _normalize. split.
  - intros Hlen He Hi.
    apply Nat.eqb_neq in Hlen. apply String.eqb_neq in He, Hi.
    now rewrite Hlen, He, Hi.
  - intros ->. reflexivity.
Qed.

(** C8: switching the normalization mode, through the setter or through
    [toggle_normalization], keeps the cached symmetrized tensor [_ccgs] and
    the bins, and calls no collaborator but the rendering surface: it
    assigns [_normalize] of the cached tensor (under the new mode) to the
    correlograms of the visual and updates the view.  The histogram kernel
    is not called. *)
Theorem normalization_switch_frame (self : CorrelogramViewModel (F:=F))
    (value : string) (t : tensor) (n1 n2 n3 : nat) :
  _ccgs self = Some t ->
  (0 < n2)%nat -> (0 < n3)%nat -> has_shape n1 n2 n3 t ->
  let toggled :=
    if String.eqb (_normalization self) "independent" then "equal"
    else "independent" in
  (∃ a, _normalize (set_normalization self value) (Some t) = Ok a
        ∧ normalization_setter self value
          = Ok (emit (set_normalization self value)
                  [VisualSetCorrelograms a; ViewUpdate]))
  ∧ (∃ a, _normalize (set_normalization self toggled) (Some t) = Ok a
          ∧ toggle_normalization self
            = Ok (emit (set_normalization self toggled)
                    [VisualSetCorrelograms a; ViewUpdate]))
  ∧ ∀ self',
      normalization_setter self value = Ok self'
      ∨ toggle_normalization self = Ok self' ->
      _ccgs self' = Some t
      ∧ kernel_calls (calls self') = kernel_calls (calls self)
      ∧ binsize self' = binsize self
      ∧ winsize_bins self' = winsize_bins self.
Proof.
  intros Hc H2 H3 Hshape toggled.
  assert (Hset : ∀ v, ∃ a,
    _normalize (set_normalization self v) (Some t) = Ok a
    ∧ normalization_setter self v
      = Ok (emit (set_normalization self v) [VisualSetCorrelograms a; ViewUpdate])).
  { intros v.
    destruct (normalize_total (set_normalization self v) n1 n2 n3 t H2 H3 Hshape)
      as [a Ha].
    exists a. split; [exact Ha | ].
    unfold normalization_setter.
    change (_ccgs (set_normalization self v)) with (_ccgs self).
    rewrite Hc, Ha. reflexivity. }
  split; [apply Hset | ]. split; [apply Hset | ].
  assert (Hframe : ∀ v self', normalization_setter self v = Ok self' ->
    _ccgs self' = Some t
    ∧ kernel_calls (calls self') = kernel_calls (calls self)
    ∧ binsize self' = binsize self ∧ winsize_bins self' = winsize_bins self).
  { intros v self' Hs. destruct (Hset v) as (a & _ & Heq).
    rewrite Heq in Hs. injection Hs as <-. simpl.
    split; [exact Hc | ]. split; [ | now split].
    unfold kernel_calls. rewrite List.filter_app. simpl. now rewrite app_nil_r. }
  intros self' [Hs | Hs]; [exact (Hframe value self' Hs) | ].
  exact (Hframe toggled self' Hs).
Qed.

End AnyFloat.

Lemma example_ccgs_shape : has_shape 2 2 3 example_ccgs.
Proof. split; [reflexivity | ]. repeat constructor. Qed.

Lemma normalize_other_mode_witness :
  length example_ccgs ≠ 0%nat
  ∧ "peak" ≠ "equal" ∧ "peak" ≠ "independent"
  ∧ _normalize (example_view_model "peak" None) (Some example_ccgs) = Ok None
  ∧ length (@nil (list (list Z))) = 0%nat
  ∧ _normalize (example_view_model "equal" None) (Some []) = Ok (Some (IntArray [])).
Proof.
  split; [discriminate | ]. split; [discriminate | ]. split; [discriminate | ].
  split.
  - apply (proj1 (normalize_other_mode (example_view_model "peak" None) example_ccgs));
      discriminate.
  - split; [reflexivity | ].
    now apply (proj2 (normalize_other_mode (example_view_model "equal" None) [])).
Defined.

Lemma normalization_switch_frame_witness :
  _ccgs (example_view_model "equal" (Some example_ccgs)) = Some example_ccgs
  ∧ (0 < 2)%nat ∧ (0 < 3)%nat ∧ has_shape 2 2 3 example_ccgs
  ∧ ∀ self',
      normalization_setter (example_view_model "equal" (Some example_ccgs))
        "independent" = Ok self'
      ∨ toggle_normalization (example_view_model "equal" (Some example_ccgs))
        = Ok self' ->
      _ccgs self' = Some example_ccgs
      ∧ kernel_calls (calls self')
        = kernel_calls (calls (example_view_model "equal" (Some example_ccgs)))
      ∧ binsize self' = 20%Z ∧ winsize_bins self' = 41%Z.
Proof.
  split; [reflexivity | ]. split; [lia | ]. split; [lia | ].
  split; [exact example_ccgs_shape | ].
  apply (normalization_switch_frame
           (example_view_model "equal" (Some example_ccgs)) "independent"
           example_ccgs 2 2 3 eq_refl); [lia | lia | exact example_ccgs_shape].
Defined.

(** C2: on a non-empty tensor of counts (a tensor of shape [(n1, n2, n3)]
    with no dimension zero), mode ['equal'] multiplies every entry by
    [1 / max(1, m)], [m] being the largest entry of the whole tensor, one
    scalar for all entries, and no normalized entry exceeds 1; mode
    ['independent'] multiplies each lag slice [[i, j, :]] by
    [1 / max(1, m)], [m] being the largest entry of that slice.  Multiplying
    by that inverse is dividing by the divisor, and the divisor is at
    least 1.  Floats are idealised as rationals; the counts need not be
    non-negative. *)
Theorem normalize_modes (self : CorrelogramViewModel (F:=Q)) (t : tensor)
    (n1 n2 n3 : nat) :
  (0 < n1)%nat -> (0 < n2)%nat -> (0 < n3)%nat -> has_shape n1 n2 n3 t ->
  (_normalization self = "equal" ->
   let d := Qmax 1 (inject_Z (maximum (concat (concat t)))) in
   let a := map (map (map (fun x => inject_Z x * (1 / d)))) t in
   is_max (maximum (concat (concat t))) (concat (concat t))
   ∧ _normalize self (Some t) = Ok (Some (FloatArray a))
   ∧ 1 <= d
   ∧ (∀ x, inject_Z x * (1 / d) == inject_Z x / d)
   ∧ ∀ i j k y, entry a i j k = Some y -> y <= 1)
  ∧ (_normalization self = "independent" ->
     let d := fun sl => Qmax 1 (inject_Z (maximum sl)) in
     let a := map (map (fun sl => map (fun x => inject_Z x * (1 / d sl)) sl)) t in
     _normalize self (Some t) = Ok (Some (FloatArray a))
     ∧ ∀ i j sl, lag_slice t i j = Some sl ->
         is_max (maximum sl) sl
         ∧ 1 <= d sl
         ∧ lag_slice a i j = Some (map (fun x => inject_Z x * (1 / d sl)) sl)
         ∧ ∀ x, inject_Z x * (1 / d sl) == inject_Z x / d sl).
Proof.
  intros H1 H2 H3 Hshape.
  pose proof (has_shape_nonempty n1 n2 n3 t H1 H2 H3 Hshape) as Hne.
  assert (Hlen : Nat.eqb (length t) 0 = false).
  { apply Nat.eqb_neq. destruct Hshape as [-> _]. lia. }
  split.
  - intros Hmode d a.
    pose proof (maximum_is_max _ Hne) as Hmax.
    split; [exact Hmax | ]. split.
    + unfold _normalize. rewrite Hlen, Hmode. simpl.
      rewrite (array_max_maximum _ Hne). simpl. rewrite Q_f_max. reflexivity.
    + split; [apply divisor_floor | ]. split; [intros x; apply scale_divide | ].
      intros i j k y Hy. unfold a in Hy. rewrite entry_map in Hy.
      destruct (entry t i j k) as [x | ] eqn:Hx; simpl in Hy; [ | discriminate].
      injection Hy as <-. apply scale_le_1.
      apply Hmax. eapply entry_elem_of; eassumption.
  - intros Hmode d a. split.
    + unfold _normalize. rewrite Hlen, Hmode. simpl.
      rewrite (normalize_independent n1 n2 n3 t H3 Hshape). simpl.
      do 3 f_equal. unfold a.
      apply map_ext; intros row. apply map_ext; intros sl.
      unfold d. rewrite <- Q_f_max. reflexivity.
    + intros i j sl Hsl.
      assert (Hsne : sl ≠ []).
      { pose proof (has_shape_slice _ _ _ _ _ _ _ Hshape Hsl) as Hl.
        intros ->. simpl in Hl. lia. }
      split; [now apply maximum_is_max | ].
      split; [apply divisor_floor | ].
      split; [ | intros x; apply scale_divide].
      unfold lag_slice in *. unfold a.
      change (map (map ?f) t) with (map f <$> t).
      rewrite list_lookup_fmap.
      destruct (t !! i) as [row | ]; simpl in *; [ | discriminate].
      change (map ?f row) with (f <$> row).
      rewrite list_lookup_fmap, Hsl. reflexivity.
Qed.

Lemma normalize_modes_witness :
  (0 < 2)%nat ∧ (0 < 2)%nat ∧ (0 < 3)%nat ∧ has_shape 2 2 3 example_ccgs
  ∧ _normalization (example_view_model "equal" None) = "equal"
  ∧ _normalize (example_view_model "equal" None) (Some example_ccgs)
    = Ok (Some (FloatArray
        (map (map (map (fun x =>
           inject_Z x * (1 / Qmax 1 (inject_Z (maximum (concat (concat example_ccgs))))))))
           example_ccgs)))
  ∧ _normalization (example_view_model "independent" None) = "independent"
  ∧ _normalize (example_view_model "independent" None) (Some example_ccgs)
    = Ok (Some (FloatArray
        (map (map (fun sl => map (fun x =>
           inject_Z x * (1 / Qmax 1 (inject_Z (maximum sl)))) sl))
           example_ccgs))).
Proof.
  split; [lia | ]. split; [lia | ]. split; [lia | ].
  split; [exact example_ccgs_shape | ]. split; [reflexivity | ].
  split; [ | split; [reflexivity | ]].
  - apply (proj1 (normalize_modes (example_view_model "equal" None) example_ccgs
                    2 2 3 ltac:(lia) ltac:(lia) ltac:(lia) example_ccgs_shape)
             eq_refl).
  - apply (proj2 (normalize_modes (example_view_model "independent" None)
                    example_ccgs 2 2 3 ltac:(lia) ltac:(lia) ltac:(lia)
                    example_ccgs_shape) eq_refl).
Defined.

(** The example tensor, normalized: its largest entry is 4. *)
Example normalize_equal_example :
  _normalize (example_view_model "equal" None) (Some example_ccgs)
  = Ok (Some (FloatArray
      (map (map (map (fun x => inject_Z x * (1 / 4)))) example_ccgs))).
Proof. reflexivity. Qed.

Example normalize_independent_example :
  _normalize (example_view_model "independent" None)
    (Some [[[1; 4; 1]; [0; 0; 0]]]%Z)
  = Ok (Some (FloatArray
      [[[1 * (1 / 4); 4 * (1 / 4); 1 * (1 / 4)];
        [0 * (1 / 1); 0 * (1 / 1); 0 * (1 / 1)]]])).
Proof. reflexivity. Qed.

(** In binary64 the product with the rounded inverse need not be the
    quotient: the peak 49 is mapped just below 1. *)
Example normalize_equal_binary64 :
  _normalize (example_view_model64 "equal" None) (Some [[[1; 49; 7]]]%Z)
  = Ok (Some (FloatArray
      [[[0.020408163265306121; 0.99999999999999989; 0.14285714285714285]]]%float)).
Proof. vm_compute. reflexivity. Qed.

End Normalization.

(** ** The dimension matrix *)

Ltac cell_cases :=
  repeat case_decide; simplify_eq/=; try done;
  try (exfalso;
       repeat match goal with
              | H : (_, _) ≠ (_, _) |- _ => rewrite pair_equal_spec in H
              end;
       unfold written in *; lia);
  try (repeat match goal with
              | H : ?l !! ?i = Some _ |- context [?l !! ?i] => rewrite H
              end; done).

Section Dimensions.

Lemma py_index_lt {A : Type} (l : list A) (i : nat) :
  i < length l -> ∃ a, l !! i = Some a ∧ py_index l i = Ok a.
Proof.
  intros Hi. destruct (lookup_lt_is_Some_2 l i Hi) as [a Ha].
  exists a. split; [exact Ha | ]. unfold py_index. now rewrite Ha.
Qed.

Lemma dims_at_init (xs ys : list Z) (n : nat) :
  dims_at xs ys n 1 0 0 (<[(0, 0) := Time]> ∅, <[(0, 0) := Time]> ∅).
Proof.
  intros [r c]. simpl. rewrite !lookup_insert, !lookup_empty.
  unfold x_dim_at, y_dim_at. split; cell_cases.
Qed.

Lemma first_row_col_step (xs ys : list Z) (n b : nat) (d : dims * dims) :
  length xs = n -> length ys = n -> 1 <= b < 1 + n ->
  dims_at xs ys n b 0 0 d ->
  ∃ d', first_row_col xs ys b d = Ok d' ∧ dims_at xs ys n (S b) 0 0 d'.
Proof.
  intros Hx Hy Hb Hd. destruct d as [x_dim y_dim].
  destruct (py_index_lt xs (b - 1) ltac:(lia)) as (cx & Hcx & Hix).
  destruct (py_index_lt ys (b - 1) ltac:(lia)) as (cy & Hcy & Hiy).
  unfold first_row_col. rewrite Hix, Hiy. simpl.
  eexists. split; [reflexivity | ].
  intros [r c]. destruct (Hd (r, c)) as [Hdx Hdy]. simpl in *.
  rewrite !lookup_insert, Hdx, Hdy. unfold x_dim_at, y_dim_at.
  split.
  - cell_cases.
  - cell_cases.
Qed.

Lemma interior_cell_step (xs ys : list Z) (n i j : nat) (d : dims * dims) :
  length xs = n -> length ys = n -> 1 <= i < 1 + n -> 1 <= j < 1 + n ->
  dims_at xs ys n (1 + n) i j d ->
  ∃ d', interior_cell xs ys i j d = Ok d' ∧ dims_at xs ys n (1 + n) i (S j) d'.
Proof.
  intros Hx Hy Hi Hj Hd. destruct d as [x_dim y_dim].
  destruct (py_index_lt xs (i - 1) ltac:(lia)) as (cx & Hcx & Hix).
  destruct (py_index_lt ys (j - 1) ltac:(lia)) as (cy & Hcy & Hiy).
  unfold interior_cell. rewrite Hix, Hiy. simpl.
  eexists. split; [reflexivity | ].
  intros [r c]. destruct (Hd (r, c)) as [Hdx Hdy]. simpl in *.
  rewrite !lookup_insert, Hdx, Hdy. unfold x_dim_at, y_dim_at.
  split; cell_cases.
Qed.

Lemma dims_at_ext (xs ys : list Z) (n b i j i' j' : nat) (d : dims * dims) :
  (∀ r c, written n i j r c ↔ written n i' j' r c) ->
  dims_at xs ys n b i j d -> dims_at xs ys n b i' j' d.
Proof.
  intros Hw Hd [r c]. destruct (Hd (r, c)) as [-> ->].
  unfold x_dim_at, y_dim_at. specialize (Hw r c).
  split; repeat case_decide; try reflexivity; tauto.
Qed.

Lemma interior_row (xs ys : list Z) (n i : nat) (d : dims * dims) :
  length xs = n -> length ys = n -> 1 <= i < 1 + n ->
  dims_at xs ys n (1 + n) i 1 d ->
  ∃ d', for_range 1 n (interior_cell xs ys i) d = Ok d'
        ∧ dims_at xs ys n (1 + n) (S i) 1 d'.
Proof.
  intros Hx Hy Hi Hd.
  destruct (for_range_invariant (fun j => dims_at xs ys n (1 + n) i j)
              (interior_cell xs ys i) n 1 d Hd) as (d' & Hrun & Hd').
  - intros j s Hj. now apply interior_cell_step.
  - exists d'. split; [exact Hrun | ].
    eapply dims_at_ext; [ | exact Hd']. intros r c. unfold written. lia.
Qed.

Lemma dimensions_cells (xs ys : list Z) :
  length ys = length xs ->
  ∃ d, _dimensions xs ys = Ok d
       ∧ dims_at xs ys (length xs) (1 + length xs) (1 + length xs) 1 d.
Proof.
  intros Hy. set (n := length xs). unfold _dimensions. fold n.
  rewrite Hy. fold n. rewrite Nat.eqb_refl. simpl.
  destruct (for_range_invariant (fun b => dims_at xs ys n b 0 0)
              (first_row_col xs ys) n 1 _ (dims_at_init xs ys n))
    as (d1 & -> & Hd1).
  { intros b s Hb. now apply first_row_col_step. }
  simpl.
  apply (for_range_invariant (fun i => dims_at xs ys n (1 + n) i 1)
           (fun i => for_range 1 n (interior_cell xs ys i)) n 1 d1).
  - eapply dims_at_ext; [ | exact Hd1]. intros r c. unfold written. lia.
  - intros i s Hi. now apply interior_row.
Qed.

Lemma x_dim_at_final (xs : list Z) (r c : nat) :
  is_Some (x_dim_at xs (length xs) (1 + length xs) (1 + length xs) 1 (r, c))
  ↔ r <= length xs ∧ c <= length xs.
Proof.
  unfold x_dim_at. repeat case_decide.
  - rewrite fmap_is_Some, lookup_lt_is_Some. unfold written in *. lia.
  - split; [lia | eauto].
  - split; [intros [? [=]] | unfold written in *; lia].
Qed.

Lemma y_dim_at_final (xs ys : list Z) (r c : nat) :
  length ys = length xs ->
  is_Some (y_dim_at xs ys (length xs) (1 + length xs) (1 + length xs) 1 (r, c))
  ↔ r <= length xs ∧ c <= length xs.
Proof.
  intros Hy. unfold y_dim_at. repeat case_decide.
  - rewrite fmap_is_Some, lookup_lt_is_Some. unfold written in *. lia.
  - split; [lia | eauto].
  - rewrite fmap_is_Some, lookup_lt_is_Some. lia.
  - rewrite fmap_is_Some, lookup_lt_is_Some. lia.
  - split; [intros [? [=]] | unfold written in *; lia].
Qed.

(** C6: for channel sequences of equal length [n], [_dimensions] builds two
    dictionaries with the same keys, the cells [(row, col)] with [row] and
    [col] in [[0, n]]: cell [(0, 0)] is time on both axes; in the first row
    x is time and y is [(x_channels[col - 1], 0)]; in the first column x is
    time and y is [(y_channels[row - 1], 0)]; in an interior cell x is
    [(x_channels[row - 1], col - 1)] and y is
    [(y_channels[col - 1], row - 1)]. *)
Theorem dimensions_grid (xs ys : list Z) :
  length ys = length xs ->
  let n := length xs in
  ∃ x_dim y_dim : dims,
    _dimensions xs ys = Ok (x_dim, y_dim)
    ∧ dom x_dim = dom y_dim
    ∧ (∀ row col, (row, col) ∈ dom x_dim ↔ row <= n ∧ col <= n)
    ∧ x_dim !! (0, 0) = Some Time
    ∧ y_dim !! (0, 0) = Some Time
    ∧ (∀ col, 1 <= col <= n ->
         x_dim !! (0, col) = Some Time
         ∧ ∃ ch, xs !! (col - 1) = Some ch
                 ∧ y_dim !! (0, col) = Some (ChannelFeature ch 0))
    ∧ (∀ row, 1 <= row <= n ->
         x_dim !! (row, 0) = Some Time
         ∧ ∃ ch, ys !! (row - 1) = Some ch
                 ∧ y_dim !! (row, 0) = Some (ChannelFeature ch 0))
    ∧ (∀ row col, 1 <= row <= n -> 1 <= col <= n ->
         ∃ cx cy, xs !! (row - 1) = Some cx ∧ ys !! (col - 1) = Some cy
                  ∧ x_dim !! (row, col) = Some (ChannelFeature cx (col - 1))
                  ∧ y_dim !! (row, col) = Some (ChannelFeature cy (row - 1))).
Proof.
  intros Hy n. destruct (dimensions_cells xs ys Hy) as ([x_dim y_dim] & Hrun & Hd).
  fold n in Hd. exists x_dim, y_dim. split; [exact Hrun | ].
  assert (Hx : ∀ cell, x_dim !! cell = x_dim_at xs n (1 + n) (1 + n) 1 cell)
    by (intros cell; apply (Hd cell)).
  assert (Hyd : ∀ cell, y_dim !! cell = y_dim_at xs ys n (1 + n) (1 + n) 1 cell)
    by (intros cell; apply (Hd cell)).
  split; [ | split; [ | split; [ | split; [ | split; [ | split]]]]].
  - apply set_eq. intros [r c]. rewrite !elem_of_dom, Hx, Hyd.
    unfold n. rewrite x_dim_at_final, (y_dim_at_final xs ys r c Hy). reflexivity.
  - intros r c. rewrite elem_of_dom, Hx. apply x_dim_at_final.
  - rewrite Hx. unfold x_dim_at. cell_cases.
  - rewrite Hyd. unfold y_dim_at. cell_cases.
  - intros col Hc.
    destruct (lookup_lt_is_Some_2 xs (col - 1) ltac:(lia)) as [ch Hch].
    split; [rewrite Hx; unfold x_dim_at; cell_cases | ].
    exists ch. split; [exact Hch | ]. rewrite Hyd. unfold y_dim_at. cell_cases.
  - intros row Hr.
    destruct (lookup_lt_is_Some_2 ys (row - 1) ltac:(lia)) as [ch Hch].
    split; [rewrite Hx; unfold x_dim_at; cell_cases | ].
    exists ch. split; [exact Hch | ]. rewrite Hyd. unfold y_dim_at. cell_cases.
  - intros row col Hr Hc.
    destruct (lookup_lt_is_Some_2 xs (row - 1) ltac:(lia)) as [cx Hcx].
    destruct (lookup_lt_is_Some_2 ys (col - 1) ltac:(lia)) as [cy Hcy].
    exists cx, cy. split; [exact Hcx | ]. split; [exact Hcy | ].
    rewrite Hx, Hyd. unfold x_dim_at, y_dim_at. split; cell_cases.
Qed.

Lemma dimensions_grid_witness :
  length [7; 9]%Z = length [3; 5]%Z ∧ 1 <= 2 <= length [3; 5]%Z
  ∧ ∃ x_dim y_dim : dims,
      _dimensions [3; 5]%Z [7; 9]%Z = Ok (x_dim, y_dim)
      ∧ dom x_dim = dom y_dim
      ∧ x_dim !! (0, 2) = Some Time
      ∧ y_dim !! (2, 0) = Some (ChannelFeature 9 0)
      ∧ x_dim !! (2, 2) = Some (ChannelFeature 5 1)
      ∧ y_dim !! (2, 2) = Some (ChannelFeature 9 1).
Proof.
  split; [reflexivity | ]. split; [simpl; lia | ].
  destruct (dimensions_grid [3; 5]%Z [7; 9]%Z eq_refl)
    as (x_dim & y_dim & Hrun & Hdom & _ & _ & _ & Hrow & Hcol & Hin).
  exists x_dim, y_dim. split; [exact Hrun | ]. split; [exact Hdom | ].
  destruct (Hrow 2 ltac:(simpl; lia)) as [Hx02 _].
  destruct (Hcol 2 ltac:(simpl; lia)) as (_ & ch & [= <-] & Hy20).
  destruct (Hin 2 2 ltac:(simpl; lia) ltac:(simpl; lia))
    as (cx & cy & [= <-] & [= <-] & Hx22 & Hy22).
  auto.
Defined.

(** C5, as the specification states it, fails on the code: for
    [x_channels = [3, 5]] and [y_channels = [7, 9]] the x dimension of cell
    [(2, 2)] is [(x_channels[1], 1) = (5, 1)], not [(3, 1)]. *)
Lemma x22_is_second_channel :
  ∃ x_dim y_dim : dims,
    _dimensions [3; 5]%Z [7; 9]%Z = Ok (x_dim, y_dim)
    ∧ x_dim !! (2, 2) = Some (ChannelFeature 5 1)
    ∧ x_dim !! (2, 2) ≠ Some (ChannelFeature 3 1).
Proof.
  eexists _, _. split; [vm_compute; reflexivity | ].
  split; [vm_compute; reflexivity | vm_compute; discriminate].
Qed.

(** C5, amended: for channel sequences of equal length, [_dimensions] maps
    cell [(0, 0)] to time on both axes; for [x_channels = [3, 5]] and
    [y_channels = [7, 9]] it yields [x_dim[1, 1] = (3, 0)],
    [y_dim[1, 1] = (7, 0)], [x_dim[2, 2] = (5, 1)] and
    [y_dim[2, 2] = (9, 1)]. *)
Theorem dimensions_example :
  (∀ xs ys : list Z,
     length ys = length xs ->
     ∃ x_dim y_dim : dims,
       _dimensions xs ys = Ok (x_dim, y_dim)
       ∧ x_dim !! (0, 0) = Some Time ∧ y_dim !! (0, 0) = Some Time)
  ∧ ∃ x_dim y_dim : dims,
      _dimensions [3; 5]%Z [7; 9]%Z = Ok (x_dim, y_dim)
      ∧ x_dim !! (1, 1) = Some (ChannelFeature 3 0)
      ∧ y_dim !! (1, 1) = Some (ChannelFeature 7 0)
      ∧ x_dim !! (2, 2) = Some (ChannelFeature 5 1)
      ∧ y_dim !! (2, 2) = Some (ChannelFeature 9 1).
Proof.
  split.
  - intros xs ys Hy.
    destruct (dimensions_cells xs ys Hy) as ([x_dim y_dim] & Hrun & Hd).
    exists x_dim, y_dim. split; [exact Hrun | ].
    destruct (Hd (0, 0)) as [Hx0 Hy0]. simpl in Hx0, Hy0.
    rewrite Hx0, Hy0. unfold x_dim_at, y_dim_at.
    split; cell_cases.
  - eexists _, _. split; [vm_compute; reflexivity | ].
    repeat split; vm_compute; reflexivity.
Qed.

Lemma dimensions_example_witness :
  length [7; 9]%Z = length [3; 5]%Z
  ∧ ∃ x_dim y_dim : dims,
      _dimensions [3; 5]%Z [7; 9]%Z = Ok (x_dim, y_dim)
      ∧ x_dim !! (0, 0) = Some Time ∧ y_dim !! (0, 0) = Some Time.
Proof.
  split; [reflexivity | ].
  exact (proj1 dimensions_example [3; 5]%Z [7; 9]%Z eq_refl).
Defined.

(** When the sequences differ in length the assertion fails. *)
Lemma dimensions_length_mismatch (xs ys : list Z) :
  length ys ≠ length xs -> _dimensions xs ys = Raise AssertionError.
Proof.
  intros Hne. unfold _dimensions. apply Nat.eqb_neq in Hne. now rewrite Hne.
Qed.

End Dimensions.

(** ** Moving the interval of the trace view *)

Section TraceMoves.
Import Scroll.
Local Open Scope Z_scope.

Lemma move_unfold (n start end_ amount : Z) :
  move {| n_samples := n; _interval := Some (start, end_) |} amount
  = if decide (start < end_ ∧ 1 <= n)
    then Ok {| n_samples := n;
               _interval := Some (clamp_interval n (start + amount) (end_ + amount)) |}
    else Raise AssertionError.
Proof.
  unfold move. cbn [_interval].
  rewrite (interval_setter_ints _ (PyInt (start + amount)) (PyInt (end_ + amount))
             (start + amount) (end_ + amount) eq_refl eq_refl).
  cbn [n_samples]. repeat case_decide; try reflexivity; lia.
Qed.


Lemma move_within (n start end_ amount : Z) :
  0 <= start < end_ ∧ end_ <= n ->
  0 <= start + amount ∧ end_ + amount <= n ->
  move {| n_samples := n; _interval := Some (start, end_) |} amount
    = Ok {| n_samples := n; _interval := Some (start + amount, end_ + amount) |}.
Proof.
  intros H Hfit. rewrite move_unfold.
  rewrite decide_True by lia.
  rewrite clamp_interval_fixed by lia. reflexivity.
Qed.

(** A move that keeps the shifted interval within the traces shifts it by
    exactly the amount, and the opposite move brings the interval back. *)
Theorem move_round_trip (n start end_ amount : Z) :
  0 <= start < end_ ∧ end_ <= n ->
  0 <= start + amount ∧ end_ + amount <= n ->
  move {| n_samples := n; _interval := Some (start, end_) |} amount
    = Ok {| n_samples := n; _interval := Some (start + amount, end_ + amount) |}
  ∧ move {| n_samples := n; _interval := Some (start + amount, end_ + amount) |}
      (- amount)
    = Ok {| n_samples := n; _interval := Some (start, end_) |}.
Proof.
  intros H Hfit. split; [now apply move_within | ].
  rewrite move_within by lia. do 3 f_equal; f_equal; lia.
Qed.

Lemma move_round_trip_witness :
  (0 <= 3 < 7 ∧ 7 <= 10) ∧ (0 <= 3 + 2 ∧ 7 + 2 <= 10)
  ∧ move {| n_samples := 10; _interval := Some (3, 7) |} 2
    = Ok {| n_samples := 10; _interval := Some (3 + 2, 7 + 2) |}
  ∧ move {| n_samples := 10; _interval := Some (3 + 2, 7 + 2) |} (- 2)
    = Ok {| n_samples := 10; _interval := Some (3, 7) |}.
Proof.
  split; [lia | ]. split; [lia | ]. apply (move_round_trip 10 3 7 2); lia.
Defined.



(** Scrolling fast, [move_right(1)] and [move_left(1)], advances by a whole
    window: the new interval starts where the old one ended, respectively
    ends where the old one started, as long as it fits in the traces. *)
Theorem fast_scroll_is_contiguous (n start end_ : Z) :
  0 <= start < end_ ∧ end_ <= n ->
  (end_ + (end_ - start) <= n ->
   move_right {| n_samples := n; _interval := Some (start, end_) |} (NInt 1)
     = Ok {| n_samples := n; _interval := Some (end_, end_ + (end_ - start)) |})
  ∧ (0 <= start - (end_ - start) ->
     move_left {| n_samples := n; _interval := Some (start, end_) |} (NInt 1)
       = Ok {| n_samples := n; _interval := Some (start - (end_ - start), start) |}).
Proof.
  intros H. unfold move_right, move_left, scaled. cbn [_interval bind].
  rewrite !Z.mul_1_r. split; intros Hfit.
  - rewrite (move_within n start end_ (end_ - start) H) by lia.
    do 3 f_equal; f_equal; lia.
  - rewrite (move_within n start end_ (- (end_ - start)) H) by lia.
    do 3 f_equal; f_equal; lia.
Qed.

Lemma fast_scroll_is_contiguous_witness :
  (0 <= 30 < 40 ∧ 40 <= 100) ∧ 40 + (40 - 30) <= 100 ∧ 0 <= 30 - (40 - 30)
  ∧ move_right {| n_samples := 100; _interval := Some (30, 40) |} (NInt 1)
    = Ok {| n_samples := 100; _interval := Some (40, 40 + (40 - 30)) |}
  ∧ move_left {| n_samples := 100; _interval := Some (30, 40) |} (NInt 1)
    = Ok {| n_samples := 100; _interval := Some (30 - (40 - 30), 30) |}.
Proof.
  split; [lia | ]. split; [lia | ]. split; [lia | ].
  split.
  - apply (proj1 (fast_scroll_is_contiguous 100 30 40 ltac:(lia))). lia.
  - apply (proj2 (fast_scroll_is_contiguous 100 30 40 ltac:(lia))). lia.
Defined.

(** The default scroll, by the float [.05], moves an interval of 2000
    samples by 100 samples. *)
Example scroll_default_fraction :
  move_right {| n_samples := 100000; _interval := Some (3000, 5000) |}
    (NFloat 0.05)
  = Ok {| n_samples := 100000; _interval := Some (3100, 5100) |}
  ∧ move_left {| n_samples := 100000; _interval := Some (3000, 5000) |}
      (NFloat 0.05)
    = Ok {| n_samples := 100000; _interval := Some (2900, 4900) |}.
Proof. split; vm_compute; reflexivity. Qed.

End TraceMoves.

(** ** The default interval of the trace view *)

Section TraceSelection.
Import Scroll.
Local Open Scope Z_scope.

Lemma on_select_unfold (self : TraceViewModel) (interval_size sample_rate : float)
    (first_sample : option Z) (h : Z) :
  half_size interval_size sample_rate = Ok h ->
  Scroll.on_select self interval_size sample_rate first_sample
  = if decide (1 <= h ∧ 1 <= n_samples self)
    then Ok {| n_samples := n_samples self;
               _interval := Some (clamp_interval (n_samples self)
                                    (default h first_sample - h)
                                    (default h first_sample + h)) |}
    else Raise AssertionError.
Proof.
  intros Hh. unfold Scroll.on_select. rewrite Hh. cbn [bind].
  replace (match first_sample with Some s => s | None => h end)
    with (default h first_sample) by now destruct first_sample.
  rewrite (interval_setter_ints self (PyInt (default h first_sample - h))
             (PyInt (default h first_sample + h))
             (default h first_sample - h) (default h first_sample + h)
             eq_refl eq_refl).
  repeat case_decide; try reflexivity; lia.
Qed.

(** The default interval cannot be set when the window is too short: once
    the half size [h = int(interval_size * sample_rate / 2.)] is computed,
    the selection raises (its assertion fails) exactly when [h < 1] or the
    traces are empty, and sets an interval otherwise; when the half size
    cannot be computed (NaN or infinite), its error is raised. *)
Theorem on_select_raises (self : TraceViewModel) (interval_size sample_rate : float)
    (first_sample : option Z) :
  (∀ h, half_size interval_size sample_rate = Ok h ->
     (Scroll.on_select self interval_size sample_rate first_sample
        = Raise AssertionError
      <-> h < 1 ∨ n_samples self < 1)
     ∧ (1 <= h -> 1 <= n_samples self ->
        ∃ i, Scroll.on_select self interval_size sample_rate first_sample
             = Ok {| n_samples := n_samples self; _interval := Some i |}))
  ∧ (∀ e, half_size interval_size sample_rate = Raise e ->
       Scroll.on_select self interval_size sample_rate first_sample = Raise e).
Proof.
  split.
  - intros h Hh. rewrite (on_select_unfold _ _ _ _ h Hh).
    case_decide as Hd.
    + split; [ | eauto]. split; [discriminate | lia].
    + split; [ | lia]. split; [lia | reflexivity].
  - intros e He. unfold Scroll.on_select. now rewrite He.
Qed.

Lemma on_select_raises_witness :
  half_size 0.25 20000 = Ok 2500
  ∧ 1 <= 2500 ∧ 1 <= 1000
  ∧ (∃ i, Scroll.on_select {| n_samples := 1000; _interval := None |}
            0.25 20000 (Some 17)
          = Ok {| n_samples := 1000; _interval := Some i |})
  ∧ half_size 0.00005 20000 = Ok 0
  ∧ Scroll.on_select {| n_samples := 1000; _interval := None |}
      0.00005 20000 (Some 17) = Raise AssertionError.
Proof.
  assert (H1 : half_size 0.25 20000 = Ok 2500) by (vm_compute; reflexivity).
  assert (H0 : half_size 0.00005 20000 = Ok 0) by (vm_compute; reflexivity).
  split; [exact H1 | ]. split; [lia | ]. split; [lia | ]. split; [ | split; [exact H0 | ]].
  - apply (proj2 (proj1 (on_select_raises {| n_samples := 1000; _interval := None |}
                           0.25 20000 (Some 17)) 2500 H1)); simpl; lia.
  - apply (proj1 (proj1 (on_select_raises {| n_samples := 1000; _interval := None |}
                           0.00005 20000 (Some 17)) 0 H0)). lia.
Defined.

(** When a spike is selected and the half size is at least one sample, the
    default interval contains the sample of the first selected spike and is
    [min(2 * half_size, n)] samples wide. *)
Theorem on_select_contains_first_spike (self : TraceViewModel)
    (interval_size sample_rate : float) (h sample : Z) :
  half_size interval_size sample_rate = Ok h ->
  1 <= h -> 0 <= sample < n_samples self ->
  ∃ start end_,
    Scroll.on_select self interval_size sample_rate (Some sample)
      = Ok {| n_samples := n_samples self; _interval := Some (start, end_) |}
    ∧ 0 <= start ∧ start <= sample < end_ ∧ end_ <= n_samples self
    ∧ end_ - start = Z.min (2 * h) (n_samples self).
Proof.
  intros Hh Hh1 Hs. rewrite (on_select_unfold _ _ _ _ h Hh). simpl.
  rewrite decide_True by lia. rewrite clamp_interval_cases.
  destruct (sample - h <? 0) eqn:H1; [apply Z.ltb_lt in H1 | apply Z.ltb_ge in H1].
  - eexists _, _. split; [reflexivity | ]. lia.
  - destruct (sample + h >=? n_samples self) eqn:H2.
    + apply Z.geb_le in H2. eexists _, _. split; [reflexivity | ]. lia.
    + rewrite Z.geb_leb in H2. apply Z.leb_gt in H2.
      eexists _, _. split; [reflexivity | ]. lia.
Qed.

Lemma on_select_contains_first_spike_witness :
  half_size 0.25 20000 = Ok 2500 ∧ 1 <= 2500 ∧ 0 <= 17 < 100000
  ∧ ∃ start end_,
      Scroll.on_select {| n_samples := 100000; _interval := None |} 0.25 20000
        (Some 17)
        = Ok {| n_samples := 100000; _interval := Some (start, end_) |}
      ∧ 0 <= start ∧ start <= 17 < end_ ∧ end_ <= 100000
      ∧ end_ - start = Z.min (2 * 2500) 100000.
Proof.
  assert (H1 : half_size 0.25 20000 = Ok 2500) by (vm_compute; reflexivity).
  split; [exact H1 | ]. split; [lia | ]. split; [lia | ].
  apply (on_select_contains_first_spike
           {| n_samples := 100000; _interval := None |} 0.25 20000 2500 17 H1);
    simpl; lia.
Defined.

(** With no spike selected, the default interval starts at the first sample
    of the traces. *)
Theorem on_select_without_spikes (self : TraceViewModel)
    (interval_size sample_rate : float) (h : Z) :
  half_size interval_size sample_rate = Ok h ->
  1 <= h -> 1 <= n_samples self ->
  Scroll.on_select self interval_size sample_rate None
    = Ok {| n_samples := n_samples self;
            _interval := Some (0, Z.min (2 * h) (n_samples self)) |}.
Proof.
  intros Hh Hh1 Hn. rewrite (on_select_unfold _ _ _ _ h Hh). simpl.
  rewrite decide_True by lia. rewrite clamp_interval_cases.
  destruct (h - h <? 0) eqn:H1; [apply Z.ltb_lt in H1; lia | ].
  destruct (h + h >=? n_samples self) eqn:H2.
  - apply Z.geb_le in H2. do 3 f_equal; f_equal; lia.
  - rewrite Z.geb_leb in H2. apply Z.leb_gt in H2. do 3 f_equal; f_equal; lia.
Qed.

Lemma on_select_without_spikes_witness :
  half_size 0.25 20000 = Ok 2500 ∧ 1 <= 2500 ∧ 1 <= 100000
  ∧ Scroll.on_select {| n_samples := 100000; _interval := None |} 0.25 20000 None
    = Ok {| n_samples := 100000;
            _interval := Some (0, Z.min (2 * 2500) 100000) |}.
Proof.
  assert (H1 : half_size 0.25 20000 = Ok 2500) by (vm_compute; reflexivity).
  split; [exact H1 | ]. split; [lia | ]. split; [lia | ].
  apply (on_select_without_spikes
           {| n_samples := 100000; _interval := None |} 0.25 20000 2500 H1);
    simpl; lia.
Defined.

End TraceSelection.

(** ** The spikes of the trace view *)

Section TraceSpikes.
Local Open Scope Z_scope.

Lemma mapM_Forall2 {A B : Type} (f : A -> result B) (l : list A) (ys : list B) :
  mapM f l = Ok ys <-> Forall2 (fun x y => f x = Ok y) l ys.
Proof.
  revert ys. induction l as [ | x l IH]; intros ys; simpl.
  - split; [intros [= <-]; constructor | intros Hf; now inversion Hf].
  - split.
    + intros Hm. apply bind_Ok in Hm as (y & Hy & Hm).
      apply bind_Ok in Hm as (ys' & Hys & [= <-]).
      constructor; [exact Hy | now apply IH].
    + intros Hf. inversion Hf as [ | ? y ? ys' Hy Hys]; subst.
      apply IH in Hys. now rewrite Hy, Hys.
Qed.

Lemma py_index_Ok {A : Type} (arr : list A) (i : nat) (a : A) :
  py_index arr i = Ok a <-> arr !! i = Some a.
Proof.
  unfold py_index. destruct (arr !! i); split; intros [=]; congruence.
Qed.

Lemma fancy_index_Forall2 {A : Type} (arr : list A) (idx : list nat) (ys : list A) :
  fancy_index arr idx = Ok ys <-> Forall2 (fun i y => arr !! i = Some y) idx ys.
Proof.
  unfold fancy_index. rewrite mapM_Forall2.
  split; intros Hf; (eapply Forall2_impl; [exact Hf | ]);
    intros i y; apply py_index_Ok.
Qed.

Lemma fancy_index_in_bounds {A : Type} (arr : list A) (idx : list nat) (ys : list A) :
  Forall2 (fun i y => arr !! i = Some y) idx ys ->
  Forall (fun i => (i < length arr)%nat) idx.
Proof.
  induction 1 as [ | i y idx ys Hi _ IH]; constructor; [ | exact IH].
  eapply lookup_lt_Some. exact Hi.
Qed.

Lemma fancy_index_total {A : Type} (arr : list A) (idx : list nat) :
  Forall (fun i => (i < length arr)%nat) idx ->
  ∃ ys, fancy_index arr idx = Ok ys.
Proof.
  induction 1 as [ | i idx Hi _ [ys IH]].
  - now exists [].
  - destruct (lookup_lt_is_Some_2 arr i Hi) as [a Ha].
    exists (a :: ys). apply fancy_index_Forall2. constructor; [exact Ha | ].
    now apply fancy_index_Forall2.
Qed.

Lemma filter_none {A : Type} (P : A -> Prop) `{!∀ x, Decision (P x)} (l : list A) :
  Forall (fun x => ¬ P x) l -> filter P l = [].
Proof.
  induction 1 as [ | x l Hx _ IH]; [reflexivity | ].
  now rewrite filter_cons_False.
Qed.

Section Keyed.
Context {A : Type} (key : A -> Z).

Lemma searchsorted_first (l : list A) (v : Z) :
  Forall (fun x => v <= key x) l -> searchsorted (map key l) v = O.
Proof.
  destruct 1 as [ | x l Hx _]; simpl; [reflexivity | ].
  destruct (key x <? v) eqn:E; [apply Z.ltb_lt in E; lia | reflexivity].
Qed.

(** On an array sorted by [key], the slice between the two insertion points
    holds exactly the entries whose key is in [[start, end)]. *)
Lemma slice_sorted (l : list A) (start end_ : Z) :
  StronglySorted (fun x y => key x <= key y) l ->
  py_slice l (searchsorted (map key l) start) (searchsorted (map key l) end_)
  = filter (fun x => start <= key x < end_) l.
Proof.
  induction 1 as [ | x l _ IH Hx]; [reflexivity | ].
  simpl searchsorted.
  destruct (key x <? start) eqn:Hs;
    [apply Z.ltb_lt in Hs | apply Z.ltb_ge in Hs];
    (destruct (key x <? end_) eqn:He;
      [apply Z.ltb_lt in He | apply Z.ltb_ge in He]).
  - rewrite filter_cons_False by lia. rewrite <- IH. reflexivity.
  - rewrite filter_cons_False by lia. rewrite filter_none; [reflexivity | ].
    eapply Forall_impl; [exact Hx | ]. simpl. intros y Hy. lia.
  - rewrite filter_cons_True by lia. rewrite <- IH.
    rewrite (searchsorted_first l start).
    + unfold py_slice. simpl. now rewrite Nat.sub_0_r.
    + eapply Forall_impl; [exact Hx | ]. simpl. intros y Hy. lia.
  - rewrite filter_cons_False by lia. rewrite filter_none; [reflexivity | ].
    eapply Forall_impl; [exact Hx | ]. simpl. intros y Hy. lia.
Qed.

Lemma StronglySorted_map (l : list A) :
  StronglySorted Z.le (map key l) ->
  StronglySorted (fun x y => key x <= key y) l.
Proof.
  induction l as [ | x l IH]; simpl; intros Hs; [constructor | ].
  inversion Hs as [ | ? ? Hl Hx]; subst. constructor; [now apply IH | ].
  now rewrite Forall_map in Hx.
Qed.

End Keyed.

Lemma py_slice_map {A B : Type} (f : A -> B) (l : list A) (a b : nat) :
  py_slice (map f l) a b = map f (py_slice l a b).
Proof.
  unfold py_slice. change (map f) with (fmap (M:=list) f).
  now rewrite fmap_take, fmap_drop.
Qed.

Lemma Forall2_py_slice {A B : Type} (R : A -> B -> Prop) (l : list A) (k : list B)
    (a b : nat) :
  Forall2 R l k -> Forall2 R (py_slice l a b) (py_slice k a b).
Proof. intros H. unfold py_slice. now apply Forall2_take, Forall2_drop. Qed.

Lemma kept_spikes (spikes : list nat) (samples : list Z) (start end_ : Z) :
  length spikes = length samples ->
  StronglySorted Z.le samples ->
  let a := searchsorted samples start in
  let b := searchsorted samples end_ in
  py_slice spikes a b = map fst (in_interval start end_ spikes samples)
  ∧ py_slice samples a b = map snd (in_interval start end_ spikes samples).
Proof.
  intros Hlen Hs a b. unfold in_interval.
  set (pairs := zip spikes samples).
  assert (Hfst : map fst pairs = spikes) by (apply fst_zip; lia).
  assert (Hsnd : map snd pairs = samples) by (apply snd_zip; lia).
  assert (Hsl : py_slice pairs a b = filter (fun p => start <= p.2 < end_) pairs).
  { unfold a, b. rewrite <- Hsnd. apply (slice_sorted snd).
    apply StronglySorted_map. now rewrite Hsnd. }
  rewrite <- Hsl, <- !py_slice_map, Hfst, Hsnd. now split.
Qed.

(** What [_load_traces] assigns to the visual, in full. *)
Lemma load_traces_spikes_spec (model : KwikModel) (spikes : list nat)
    (visual : TraceVisual) (start end_ : Z) (samples : list Z) :
  length (model_spike_clusters model) = length (model_spike_samples model) ->
  length (model_masks model) = length (model_spike_samples model) ->
  fancy_index (model_spike_samples model) spikes = Ok samples ->
  StronglySorted Z.le samples ->
  let kept := in_interval start end_ spikes samples in
  ∃ clusters spike_masks,
    Forall2 (fun p c => model_spike_clusters model !! p.1 = Some c) kept clusters
    ∧ Forall2 (fun p m => model_masks model !! p.1 = Some m) kept spike_masks
    ∧ _load_traces_spikes model spikes visual (start, end_)
      = Ok (if Nat.eqb (length kept) 0
            then {| n_spikes := 0; spike_ids := [];
                    spike_clusters := spike_clusters visual;
                    spike_samples := spike_samples visual;
                    offset := offset visual; masks := masks visual |}
            else {| n_spikes := length kept; spike_ids := map fst kept;
                    spike_clusters := clusters;
                    spike_samples := map (fun p => p.2 - start) kept;
                    offset := start; masks := spike_masks |}).
Proof.
  intros Hc Hm Hidx Hsorted kept.
  pose proof Hidx as Hf2. apply fancy_index_Forall2 in Hf2.
  pose proof (Forall2_length _ _ _ Hf2) as Hlen.
  destruct (kept_spikes spikes samples start end_ Hlen Hsorted) as [Hids Hsamples].
  fold kept in Hids, Hsamples.
  assert (Hkept : Forall2 (fun i y => model_spike_samples model !! i = Some y)
                    (map fst kept) (map snd kept)).
  { rewrite <- Hids, <- Hsamples. now apply Forall2_py_slice. }
  pose proof (fancy_index_in_bounds _ _ _ Hkept) as Hlt.
  destruct (fancy_index_total (model_spike_clusters model) (map fst kept))
    as [clusters Hcl]; [now rewrite Hc | ].
  destruct (fancy_index_total (model_masks model) (map fst kept))
    as [spike_masks Hms]; [now rewrite Hm | ].
  exists clusters, spike_masks.
  split; [apply fancy_index_Forall2 in Hcl; now rewrite Forall2_fmap_l in Hcl | ].
  split; [apply fancy_index_Forall2 in Hms; now rewrite Forall2_fmap_l in Hms | ].
  unfold _load_traces_spikes. rewrite Hidx. cbn [bind].
  rewrite Hids, length_map.
  destruct (Nat.eqb (length kept) 0) eqn:Hk.
  - apply Nat.eqb_eq in Hk. destruct kept; [reflexivity | discriminate].
  - rewrite Hcl. apply fancy_index_Forall2 in Hkept. rewrite Hkept, Hms.
    cbn [bind n_spikes spike_ids]. do 2 f_equal.
    rewrite <- list_fmap_compose. reflexivity.
Qed.

Ltac sorted_list :=
  repeat match goal with
         | |- StronglySorted _ [] => apply SSorted_nil
         | |- StronglySorted _ (_ :: _) => apply SSorted_cons
         | |- Forall _ [] => apply Forall_nil_2
         | |- Forall _ (_ :: _) => apply Forall_cons_2
         | |- (_ <= _)%Z => lia
         end.

Lemma in_interval_range (start end_ : Z) (spikes : list nat) (samples : list Z) :
  Forall (fun p => start <= p.2 < end_) (in_interval start end_ spikes samples).
Proof.
  unfold in_interval. apply Forall_forall. intros p Hp.
  now apply list_elem_of_filter in Hp as [Hp _].
Qed.

(** [_load_traces] keeps exactly the selected spikes whose sample lies in
    the interval [[start, end)], in their order, provided the samples of the
    selected spikes are sorted (as the binary search requires) and the
    arrays of the model have one entry per spike. *)
Theorem load_traces_keeps_interval_spikes (model : KwikModel) (spikes : list nat)
    (visual : TraceVisual) (start end_ : Z) (samples : list Z) :
  length (model_spike_clusters model) = length (model_spike_samples model) ->
  length (model_masks model) = length (model_spike_samples model) ->
  fancy_index (model_spike_samples model) spikes = Ok samples ->
  StronglySorted Z.le samples ->
  ∃ visual',
    _load_traces_spikes model spikes visual (start, end_) = Ok visual'
    ∧ spike_ids visual'
      = map fst (filter (fun p => start <= p.2 < end_) (zip spikes samples))
    ∧ n_spikes visual' = length (spike_ids visual')
    ∧ Forall (fun i => ∃ sample, model_spike_samples model !! i = Some sample
                                 ∧ start <= sample < end_)
        (spike_ids visual').
Proof.
  intros Hc Hm Hidx Hsorted.
  destruct (load_traces_spikes_spec model spikes visual start end_ samples
              Hc Hm Hidx Hsorted) as (clusters & spike_masks & _ & _ & Hrun).
  fold (in_interval start end_ spikes samples).
  set (kept := in_interval start end_ spikes samples) in *.
  assert (Hin : Forall (fun i => ∃ sample,
                   model_spike_samples model !! i = Some sample
                   ∧ start <= sample < end_) (map fst kept)).
  { apply Forall_forall. intros i Hi.
    apply list_elem_of_fmap in Hi as ([i' sample] & -> & Hp).
    exists sample. unfold kept, in_interval in Hp.
    apply list_elem_of_filter in Hp as [Hr Hz]. split; [ | exact Hr].
    apply list_elem_of_lookup in Hz as [k Hk].
    apply lookup_zip_with_Some in Hk as (i'' & s'' & [= <- <-] & Hi & Hs).
    apply fancy_index_Forall2 in Hidx.
    destruct (Forall2_lookup_l _ _ _ _ _ Hidx Hi) as (s' & Hs' & Hlook).
    simpl. congruence. }
  eexists. split; [exact Hrun | ].
  destruct (Nat.eqb (length kept) 0) eqn:Hk; simpl.
  - apply Nat.eqb_eq in Hk. destruct kept; [ | discriminate].
    split; [reflexivity | ]. split; [reflexivity | constructor].
  - split; [reflexivity | ]. split; [now rewrite length_map | exact Hin].
Qed.

Lemma load_traces_keeps_interval_spikes_witness :
  length (model_spike_clusters example_model)
    = length (model_spike_samples example_model)
  ∧ length (model_masks example_model) = length (model_spike_samples example_model)
  ∧ fancy_index (model_spike_samples example_model) [0; 2; 3; 4]%nat
    = Ok [5; 20; 31; 47]
  ∧ StronglySorted Z.le [5; 20; 31; 47]
  ∧ ∃ visual',
      _load_traces_spikes example_model [0; 2; 3; 4]%nat stale_visual (10, 40)
        = Ok visual'
      ∧ spike_ids visual' = [2; 3]%nat.
Proof.
  split; [reflexivity | ]. split; [reflexivity | ]. split; [reflexivity | ].
  split; [sorted_list | ].
  destruct (load_traces_keeps_interval_spikes example_model [0; 2; 3; 4]%nat
              stale_visual 10 40 [5; 20; 31; 47] eq_refl eq_refl eq_refl
              ltac:(sorted_list)) as (visual' & Hrun & Hids & _).
  exists visual'. split; [exact Hrun | ]. rewrite Hids. reflexivity.
Defined.

(** When some selected spike is in the interval, the visual receives one
    cluster, one sample and one row of masks per kept spike; the samples are
    relative to the start of the interval, hence within
    [[0, end - start)], and the offset is the start. *)
Theorem load_traces_relative_samples (model : KwikModel) (spikes : list nat)
    (visual : TraceVisual) (start end_ : Z) (samples : list Z) :
  length (model_spike_clusters model) = length (model_spike_samples model) ->
  length (model_masks model) = length (model_spike_samples model) ->
  fancy_index (model_spike_samples model) spikes = Ok samples ->
  StronglySorted Z.le samples ->
  (∃ sample, sample ∈ samples ∧ start <= sample < end_) ->
  ∃ visual',
    _load_traces_spikes model spikes visual (start, end_) = Ok visual'
    ∧ (0 < n_spikes visual')%nat
    ∧ length (spike_ids visual') = n_spikes visual'
    ∧ length (spike_clusters visual') = n_spikes visual'
    ∧ length (spike_samples visual') = n_spikes visual'
    ∧ length (masks visual') = n_spikes visual'
    ∧ offset visual' = start
    ∧ Forall (fun sample => 0 <= sample < end_ - start) (spike_samples visual')
    ∧ Forall2 (fun i sample =>
                 model_spike_samples model !! i = Some (sample + start))
        (spike_ids visual') (spike_samples visual')
    ∧ Forall2 (fun i c => model_spike_clusters model !! i = Some c)
        (spike_ids visual') (spike_clusters visual')
    ∧ Forall2 (fun i m => model_masks model !! i = Some m)
        (spike_ids visual') (masks visual').
Proof.
  intros Hc Hm Hidx Hsorted (sample & Hin & Hrange).
  destruct (load_traces_spikes_spec model spikes visual start end_ samples
              Hc Hm Hidx Hsorted) as (clusters & spike_masks & Hcl & Hms & Hrun).
  set (kept := in_interval start end_ spikes samples) in *.
  pose proof Hidx as Hf2. apply fancy_index_Forall2 in Hf2.
  assert (Hne : Nat.eqb (length kept) 0 = false).
  { apply Nat.eqb_neq. intros Hz.
    apply list_elem_of_lookup in Hin as [k Hk].
    destruct (Forall2_lookup_r _ _ _ _ _ Hf2 Hk) as (i & Hi & _).
    assert (Hp : (i, sample) ∈ kept).
    { apply list_elem_of_filter. split; [exact Hrange | ].
      apply list_elem_of_lookup. exists k.
      apply lookup_zip_with_Some. eauto. }
    destruct kept; [inversion Hp | discriminate]. }
  rewrite Hne in Hrun. eexists. split; [exact Hrun | ]. simpl.
  apply Nat.eqb_neq in Hne.
  pose proof (Forall2_length _ _ _ Hcl) as Hlc.
  pose proof (Forall2_length _ _ _ Hms) as Hlm.
  pose proof (in_interval_range start end_ spikes samples) as Hr. fold kept in Hr.
  rewrite !length_map.
  repeat split; try lia.
  - rewrite Forall_map. eapply Forall_impl; [exact Hr | ].
    intros p Hp. simpl in *. lia.
  - rewrite Forall2_fmap. apply Forall_Forall2_diag.
    apply Forall_forall. intros [i s] Hp. simpl.
    unfold kept, in_interval in Hp. apply list_elem_of_filter in Hp as [_ Hz].
    apply list_elem_of_lookup in Hz as [k Hk].
    apply lookup_zip_with_Some in Hk as (i' & s' & [= <- <-] & Hi & Hs).
    destruct (Forall2_lookup_l _ _ _ _ _ Hf2 Hi) as (s'' & Hs'' & Hlook).
    rewrite Hlook. f_equal. rewrite Hs in Hs''. injection Hs'' as <-. lia.
  - now rewrite Forall2_fmap_l.
  - now rewrite Forall2_fmap_l.
Qed.

Lemma load_traces_relative_samples_witness :
  length (model_spike_clusters example_model)
    = length (model_spike_samples example_model)
  ∧ length (model_masks example_model) = length (model_spike_samples example_model)
  ∧ fancy_index (model_spike_samples example_model) [0; 2; 3; 4]%nat
    = Ok [5; 20; 31; 47]
  ∧ StronglySorted Z.le [5; 20; 31; 47]
  ∧ (∃ sample, sample ∈ [5; 20; 31; 47] ∧ 10 <= sample < 40)
  ∧ ∃ visual',
      _load_traces_spikes example_model [0; 2; 3; 4]%nat stale_visual (10, 40)
        = Ok visual'
      ∧ offset visual' = 10
      ∧ Forall (fun sample => 0 <= sample < 40 - 10) (spike_samples visual').
Proof.
  assert (Hin : ∃ sample, sample ∈ [5; 20; 31; 47] ∧ 10 <= sample < 40).
  { exists 20. split; [ | lia]. apply list_elem_of_further, list_elem_of_here. }
  split; [reflexivity | ]. split; [reflexivity | ]. split; [reflexivity | ].
  split; [sorted_list | ]. split; [exact Hin | ].
  destruct (load_traces_relative_samples example_model [0; 2; 3; 4]%nat
              stale_visual 10 40 [5; 20; 31; 47] eq_refl eq_refl eq_refl
              ltac:(sorted_list) Hin)
    as (visual' & Hrun & _ & _ & _ & _ & _ & Hoff & Hrel & _).
  exists visual'. auto.
Defined.

(** When no selected spike is in the interval, only the number of spikes
    and the spike ids of the visual are refreshed (to nothing): its
    clusters, samples, offset and masks keep their previous values. *)
Theorem load_traces_no_spike_keeps_fields (model : KwikModel) (spikes : list nat)
    (visual : TraceVisual) (start end_ : Z) (samples : list Z) :
  length (model_spike_clusters model) = length (model_spike_samples model) ->
  length (model_masks model) = length (model_spike_samples model) ->
  fancy_index (model_spike_samples model) spikes = Ok samples ->
  StronglySorted Z.le samples ->
  Forall (fun sample => ¬ (start <= sample < end_)) samples ->
  _load_traces_spikes model spikes visual (start, end_)
  = Ok {| n_spikes := 0; spike_ids := [];
          spike_clusters := spike_clusters visual;
          spike_samples := spike_samples visual;
          offset := offset visual; masks := masks visual |}.
Proof.
  intros Hc Hm Hidx Hsorted Hout.
  destruct (load_traces_spikes_spec model spikes visual start end_ samples
              Hc Hm Hidx Hsorted) as (clusters & spike_masks & _ & _ & Hrun).
  replace (in_interval start end_ spikes samples) with (@nil (nat * Z)) in Hrun;
    [exact Hrun | ].
  symmetry. unfold in_interval. apply filter_none.
  apply Forall_forall. intros [i s] Hp. simpl.
  apply list_elem_of_lookup in Hp as [k Hk].
  apply lookup_zip_with_Some in Hk as (i' & s' & [= <- <-] & _ & Hs).
  rewrite Forall_lookup in Hout. exact (Hout k s Hs).
Qed.

Lemma load_traces_no_spike_keeps_fields_witness :
  length (model_spike_clusters example_model)
    = length (model_spike_samples example_model)
  ∧ length (model_masks example_model) = length (model_spike_samples example_model)
  ∧ fancy_index (model_spike_samples example_model) [0; 2; 3; 4]%nat
    = Ok [5; 20; 31; 47]
  ∧ StronglySorted Z.le [5; 20; 31; 47]
  ∧ Forall (fun sample => ¬ (21 <= sample < 30)) [5; 20; 31; 47]
  ∧ _load_traces_spikes example_model [0; 2; 3; 4]%nat stale_visual (21, 30)
    = Ok {| n_spikes := 0; spike_ids := [];
            spike_clusters := spike_clusters stale_visual;
            spike_samples := spike_samples stale_visual;
            offset := offset stale_visual; masks := masks stale_visual |}.
Proof.
  assert (Hout : Forall (fun sample => ¬ (21 <= sample < 30)) [5; 20; 31; 47])
    by (repeat constructor; lia).
  split; [reflexivity | ]. split; [reflexivity | ]. split; [reflexivity | ].
  split; [sorted_list | ]. split; [exact Hout | ].
  apply (load_traces_no_spike_keeps_fields example_model [0; 2; 3; 4]%nat
           stale_visual 21 30 [5; 20; 31; 47] eq_refl eq_refl eq_refl
           ltac:(sorted_list) Hout).
Defined.

End TraceSpikes.

(** ** More on the bins and the selection of the correlograms *)

Section BinsMore.
Local Open Scope Q_scope.

(** [_oddify(x)] is the least odd integer that is not below [x]: it is [x]
    or [x + 1], and applying it twice is applying it once. *)
Theorem oddify_least_odd (x : Z) :
  Z.odd (_oddify x) = true
  ∧ (x <= _oddify x <= x + 1)%Z
  ∧ (∀ y, Z.odd y = true -> (x <= y)%Z -> (_oddify x <= y)%Z)
  ∧ _oddify (_oddify x) = _oddify x.
Proof.
  split; [apply oddify_odd | ].
  assert (Hb : (x <= _oddify x <= x + 1)%Z).
  { unfold _oddify. destruct (x mod 2 =? 1)%Z; lia. }
  split; [exact Hb | ]. split.
  - intros y Hy Hxy.
    destruct (Z.eq_dec y x) as [-> | Hne]; [rewrite oddify_of_odd by exact Hy; lia | ].
    lia.
  - apply oddify_of_odd, oddify_odd.
Qed.

Lemma oddify_least_odd_witness :
  Z.odd 41%Z = true ∧ (40 <= 41)%Z ∧ (_oddify 40 <= 41)%Z.
Proof.
  split; [reflexivity | ]. split; [lia | ].
  apply (proj1 (proj2 (proj2 (oddify_least_odd 40%Z))) 41%Z); [reflexivity | lia].
Defined.

End BinsMore.

Section SelectionMore.
Context {F : Type} `{Floating F}.
Variable k : list Z -> Z -> Z -> result tensor.
Variable sym : tensor -> tensor.

Lemma normalize_mode_only (s s' : CorrelogramViewModel (F:=F)) (c : option tensor) :
  _normalization s = _normalization s' -> _normalize s c = _normalize s' c.
Proof. intros Hm. unfold _normalize. now rewrite Hm. Qed.

(** The state that a successful [on_select] leaves. *)
Lemma on_select_result (self self' : CorrelogramViewModel (F:=F)) (clusters : list Z) :
  on_select k sym self clusters = Ok self' ->
  ∃ ccgs a,
    k clusters (binsize self) (_oddify (winsize_bins self)) = Ok ccgs
    ∧ _normalize self (Some (sym ccgs)) = Ok a
    ∧ self' =
      {| sample_rate := sample_rate self; cluster_ids := cluster_ids self;
         binsize := binsize self; winsize_bins := winsize_bins self;
         _normalization := _normalization self; _ccgs := Some (sym ccgs);
         calls := calls self
                  ++ [UpdateSpikeClusters; ViewUpdate; ViewSetClusterIds clusters;
                      Correlograms clusters (binsize self)
                        (_oddify (winsize_bins self));
                      ViewSetCorrelograms a; VisualSetClusterOrder clusters;
                      ViewUpdate] |}.
Proof.
  unfold on_select. intros Hs.
  apply bind_Ok in Hs as (ccgs & Hk & Hs).
  apply bind_Ok in Hs as (a & Ha & [= <-]).
  exists ccgs, a. split; [exact Hk | ]. split.
  - rewrite <- Ha. now apply normalize_mode_only.
  - unfold emit. simpl. f_equal. rewrite <- !app_assoc. reflexivity.
Qed.

(** Setting the normalization to the current mode after a selection hands
    the visual the very array that the selection handed the view: the two
    ways of pushing the correlograms agree, and the kernel is not called
    again. *)
Theorem normalization_after_select (self self' : CorrelogramViewModel (F:=F))
    (clusters : list Z) :
  on_select k sym self clusters = Ok self' ->
  ∃ a before,
    calls self'
      = before ++ [ViewSetCorrelograms a; VisualSetClusterOrder clusters; ViewUpdate]
    ∧ normalization_setter self' (_normalization self')
      = Ok (emit self' [VisualSetCorrelograms a; ViewUpdate]).
Proof.
  intros Hs. apply on_select_result in Hs as (ccgs & a & _ & Ha & ->).
  exists a.
  exists (calls self ++ [UpdateSpikeClusters; ViewUpdate; ViewSetClusterIds clusters;
                         Correlograms clusters (binsize self)
                           (_oddify (winsize_bins self))]).
  split.
  - simpl. rewrite <- app_assoc. reflexivity.
  - unfold normalization_setter.
    match goal with
    | |- bind ?m _ = _ => assert (Hn : m = Ok a)
    end.
    { rewrite <- Ha. apply normalize_mode_only. reflexivity. }
    rewrite Hn. reflexivity.
Qed.

Lemma select_result (self self' : CorrelogramViewModel (F:=F)) (ids : list Z) :
  select k sym self ids = Ok self' ->
  cluster_ids self' = ids ∧ sample_rate self' = sample_rate self
  ∧ binsize self' = binsize self ∧ winsize_bins self' = winsize_bins self
  ∧ _normalization self' = _normalization self
  ∧ ∃ ccgs, k ids (binsize self) (_oddify (winsize_bins self)) = Ok ccgs
            ∧ _ccgs self' = Some (sym ccgs)
            ∧ List.filter is_kernel_call (calls self')
              = List.filter is_kernel_call (calls self)
                  ++ [Correlograms ids (binsize self) (_oddify (winsize_bins self))].
Proof.
  unfold select. intros Hs.
  apply on_select_result in Hs as (ccgs & a & Hk & _ & ->). simpl in *.
  repeat split. exists ccgs. split; [exact Hk | ]. split; [reflexivity | ].
  rewrite !List.filter_app. simpl. now rewrite !app_nil_r.
Qed.

End SelectionMore.

Lemma normalization_after_select_witness :
  ∃ self',
    on_select example_kernel (fun t => t) restored_view_model64 [7; 9]%Z = Ok self'
    ∧ ∃ a before,
        calls self'
          = before ++ [ViewSetCorrelograms a; VisualSetClusterOrder [7; 9]%Z;
                       ViewUpdate]
        ∧ normalization_setter self' (_normalization self')
          = Ok (emit self' [VisualSetCorrelograms a; ViewUpdate]).
Proof.
  destruct (on_select example_kernel (fun t => t) restored_view_model64 [7; 9]%Z)
    as [s1 | e] eqn:Hs1; [ | vm_compute in Hs1; discriminate].
  exists s1. split; [reflexivity | ].
  exact (normalization_after_select example_kernel (fun t => t)
           restored_view_model64 s1 [7; 9]%Z Hs1).
Defined.

Section ChangeBinsMore.
Context {F : Type} `{Floating F}.
Variable k : list Z -> Z -> Z -> result tensor.
Variable sym : tensor -> tensor.

(** Changing the bins after a selection computes the correlograms of the
    same clusters again: the kernel is called once more, with the selected
    clusters in their order, the new [binsize] and the new [winsize_bins]
    itself (it is odd, so [_oddify] leaves it alone), and its symmetrized
    result replaces the cached tensor; the normalization mode is kept. *)
Theorem change_bins_after_select (self s1 s2 : CorrelogramViewModel (F:=F))
    (ids : list Z) (bin half_width : F) :
  select k sym self ids = Ok s1 ->
  change_bins k sym s1 bin half_width = Ok s2 ->
  ∃ b w ccgs,
    bins_of (sample_rate self) bin half_width = Ok (b, w)
    ∧ Z.odd w = true
    ∧ k ids b w = Ok ccgs
    ∧ binsize s2 = b ∧ winsize_bins s2 = w ∧ cluster_ids s2 = ids
    ∧ _normalization s2 = _normalization self
    ∧ _ccgs s2 = Some (sym ccgs)
    ∧ List.filter is_kernel_call (calls s2)
      = List.filter is_kernel_call (calls s1) ++ [Correlograms ids b w].
Proof.
  intros Hsel Hcb.
  apply select_result in Hsel as (Hids & Hsr & _ & _ & Hmode & _).
  unfold change_bins in Hcb. apply bind_Ok in Hcb as ([b w] & Hb & Hcb).
  cbn [fst snd] in Hcb.
  destruct (bins_of_window_odd _ _ _ _ _ Hb) as [Hodd Hfix].
  apply select_result in Hcb
    as (Hids2 & _ & Hbs & Hws & Hmode2 & ccgs & Hk & Hc & Hcalls).
  cbn [set_bins binsize winsize_bins cluster_ids calls _normalization] in *.
  rewrite Hfix in Hk, Hcalls. rewrite Hids in *. rewrite Hsr in Hb.
  exists b, w, ccgs. repeat split; try assumption. congruence.
Qed.

End ChangeBinsMore.

Lemma change_bins_after_select_witness :
  ∃ s1 s2,
    select example_kernel (fun t => t) restored_view_model64 [7; 9]%Z = Ok s1
    ∧ change_bins example_kernel (fun t => t) s1 0.5%float 3%float = Ok s2
    ∧ ∃ b w ccgs,
        bins_of (sample_rate restored_view_model64) 0.5%float 3%float = Ok (b, w)
        ∧ example_kernel [7; 9]%Z b w = Ok ccgs
        ∧ binsize s2 = b ∧ winsize_bins s2 = w ∧ cluster_ids s2 = [7; 9]%Z.
Proof.
  destruct (select example_kernel (fun t => t) restored_view_model64 [7; 9]%Z)
    as [s1 | e] eqn:Hs1; [ | vm_compute in Hs1; discriminate].
  destruct (change_bins example_kernel (fun t => t) s1 0.5%float 3%float)
    as [s2 | e] eqn:Hs2.
  - exists s1, s2. split; [reflexivity | ]. split; [exact Hs2 | ].
    destruct (change_bins_after_select example_kernel (fun t => t)
                restored_view_model64 s1 s2 [7; 9]%Z 0.5%float 3%float Hs1 Hs2)
      as (b & w & ccgs & Hb & _ & Hk & Hbs & Hws & Hids & _).
    exists b, w, ccgs. auto.
  - vm_compute in Hs1. injection Hs1 as <-. vm_compute in Hs2. discriminate.
Defined.

Section ToggleMore.
Context {F : Type} `{Floating F}.

Lemma has_shape_map {A B : Type} (f : list A -> list B) (n1 n2 n3 : nat)
    (t : list (list (list A))) :
  (∀ sl, length (f sl) = length sl) ->
  has_shape n1 n2 n3 t -> has_shape n1 n2 n3 (map (map f) t).
Proof.
  intros Hf [Hlen Hrows]. split; [now rewrite length_map | ].
  rewrite Forall_map. eapply Forall_impl; [exact Hrows | ].
  intros row [Hrow Hsl]. split; [now rewrite length_map | ].
  rewrite Forall_map. eapply Forall_impl; [exact Hsl | ].
  intros sl Hl. simpl. now rewrite Hf.
Qed.

(** Normalizing keeps the shape of the tensor, in both modes: the view
    receives one value per count. *)
Theorem normalize_keeps_shape (self : CorrelogramViewModel (F:=F))
    (n1 n2 n3 : nat) (t : tensor) :
  (0 < n1)%nat -> (0 < n2)%nat -> (0 < n3)%nat -> has_shape n1 n2 n3 t ->
  _normalization self = "equal" ∨ _normalization self = "independent" ->
  ∃ a, _normalize self (Some t) = Ok (Some (FloatArray a))
       ∧ has_shape n1 n2 n3 a.
Proof.
  intros H1 H2 H3 Hshape [Hmode | Hmode].
  - rewrite (normalize_equal_any_float self n1 n2 n3 t H1 H2 H3 Hshape Hmode).
    eexists. split; [reflexivity | ].
    apply has_shape_map; [intros sl; apply length_map | exact Hshape].
  - unfold _normalize.
    replace (Nat.eqb (length t) 0) with false
      by (symmetry; apply Nat.eqb_neq; destruct Hshape as [-> _]; lia).
    rewrite Hmode. cbn [String.eqb Ascii.eqb Bool.eqb].
    rewrite (normalize_independent n1 n2 n3 t H3 Hshape). cbn [bind].
    eexists. split; [reflexivity | ].
    apply (has_shape_map (fun sl => map (scale (inverse_divisor (maximum sl))) sl));
      [intros sl; apply length_map | exact Hshape].
Qed.

(** Toggling the normalization switches between the two modes: from
    ['independent'] to ['equal'], from any other mode to ['independent'];
    so two toggles restore either of the two modes, and after one toggle
    the mode is always one of the two.  The cached tensor is kept and the
    kernel is not called. *)
Theorem toggle_twice (self : CorrelogramViewModel (F:=F)) (t : tensor)
    (n1 n2 n3 : nat) :
  _ccgs self = Some t ->
  (0 < n2)%nat -> (0 < n3)%nat -> has_shape n1 n2 n3 t ->
  ∃ s1 s2,
    toggle_normalization self = Ok s1
    ∧ toggle_normalization s1 = Ok s2
    ∧ _normalization s1
      = (if String.eqb (_normalization self) "independent" then "equal"
         else "independent")
    ∧ _normalization s2
      = (if String.eqb (_normalization self) "independent" then "independent"
         else "equal")
    ∧ _ccgs s2 = Some t
    ∧ kernel_calls (calls s2) = kernel_calls (calls self).
Proof.
  intros Hc H2 H3 Hshape.
  assert (Hset : ∀ (s : CorrelogramViewModel (F:=F)) v,
            _ccgs s = Some t ->
            ∃ a, normalization_setter s v
                 = Ok (emit (set_normalization s v)
                         [VisualSetCorrelograms a; ViewUpdate])).
  { intros s v Hs.
    destruct (normalize_total (set_normalization s v) n1 n2 n3 t H2 H3 Hshape)
      as [a Ha].
    exists a. unfold normalization_setter.
    change (_ccgs (set_normalization s v)) with (_ccgs s).
    rewrite Hs, Ha. reflexivity. }
  set (v1 := if String.eqb (_normalization self) "independent" then "equal"
             else "independent").
  destruct (Hset self v1 Hc) as [a1 H1].
  set (s1 := emit (set_normalization self v1) [VisualSetCorrelograms a1; ViewUpdate]).
  set (v2 := if String.eqb (_normalization s1) "independent" then "equal"
             else "independent").
  destruct (Hset s1 v2 Hc) as [a2 H2'].
  exists s1, (emit (set_normalization s1 v2) [VisualSetCorrelograms a2; ViewUpdate]).
  split; [exact H1 | ]. split; [exact H2' | ].
  split; [reflexivity | ]. split.
  - unfold v2, s1, v1. cbn [emit set_normalization _normalization].
    destruct (String.eqb (_normalization self) "independent"); reflexivity.
  - split; [exact Hc | ].
    unfold kernel_calls, s1. cbn [emit set_normalization calls].
    rewrite !List.filter_app. simpl. now rewrite !app_nil_r.
Qed.

End ToggleMore.

Lemma normalize_keeps_shape_witness :
  (0 < 2)%nat ∧ (0 < 3)%nat ∧ has_shape 2 2 3 example_ccgs
  ∧ _normalization (example_view_model64 "independent" None) = "independent"
  ∧ ∃ a, _normalize (example_view_model64 "independent" None) (Some example_ccgs)
         = Ok (Some (FloatArray a))
         ∧ has_shape 2 2 3 a.
Proof.
  split; [lia | ]. split; [lia | ]. split; [exact example_ccgs_shape | ].
  split; [reflexivity | ].
  apply (normalize_keeps_shape (example_view_model64 "independent" None) 2 2 3
           example_ccgs); try lia; [exact example_ccgs_shape | now right].
Defined.

Lemma toggle_twice_witness :
  _ccgs (example_view_model64 "equal" (Some example_ccgs)) = Some example_ccgs
  ∧ (0 < 2)%nat ∧ (0 < 3)%nat ∧ has_shape 2 2 3 example_ccgs
  ∧ ∃ s1 s2,
      toggle_normalization (example_view_model64 "equal" (Some example_ccgs)) = Ok s1
      ∧ toggle_normalization s1 = Ok s2
      ∧ _normalization s1 = "independent"
      ∧ _normalization s2 = "equal".
Proof.
  split; [reflexivity | ]. split; [lia | ]. split; [lia | ].
  split; [exact example_ccgs_shape | ].
  destruct (toggle_twice (example_view_model64 "equal" (Some example_ccgs))
              example_ccgs 2 2 3 eq_refl ltac:(lia) ltac:(lia) example_ccgs_shape)
    as (s1 & s2 & H1 & H2 & Hm1 & Hm2 & _).
  exists s1, s2. auto.
Defined.

(** ** The feature grid *)

Section DimensionsMore.

(** [_dimensions] fails its assertion exactly when the two sequences differ
    in length. *)
Theorem dimensions_raises_iff (xs ys : list Z) :
  (_dimensions xs ys = Raise AssertionError <-> length ys ≠ length xs)
  ∧ (length ys = length xs -> ∃ d, _dimensions xs ys = Ok d).
Proof.
  split.
  - split.
    + intros Hr Heq. destruct (dimensions_cells xs ys Heq) as (d & Hd & _).
      congruence.
    + apply dimensions_length_mismatch.
  - intros Heq. destruct (dimensions_cells xs ys Heq) as (d & Hd & _). eauto.
Qed.

Lemma dimensions_raises_iff_witness :
  length [7; 9]%Z = length [3; 5]%Z
  ∧ ∃ d, _dimensions [3; 5]%Z [7; 9]%Z = Ok d.
Proof.
  split; [reflexivity | ].
  exact (proj2 (dimensions_raises_iff [3; 5]%Z [7; 9]%Z) eq_refl).
Defined.

(** The cells of the matrix, for sequences of equal length. *)
Lemma dimensions_lookup (xs ys : list Z) :
  length ys = length xs ->
  ∃ x_dim y_dim : dims,
    _dimensions xs ys = Ok (x_dim, y_dim)
    ∧ (∀ r c, is_Some (x_dim !! (r, c)) <-> r <= length xs ∧ c <= length xs)
    ∧ (∀ r c, is_Some (y_dim !! (r, c)) <-> r <= length xs ∧ c <= length xs)
    ∧ ∀ r c, 1 <= r <= length xs -> 1 <= c <= length xs ->
        x_dim !! (r, c) = (fun ch => ChannelFeature ch (c - 1)) <$> xs !! (r - 1)
        ∧ y_dim !! (r, c) = (fun ch => ChannelFeature ch (r - 1)) <$> ys !! (c - 1).
Proof.
  intros Hy. destruct (dimensions_cells xs ys Hy) as ([x_dim y_dim] & Hrun & Hd).
  exists x_dim, y_dim. split; [exact Hrun | ].
  assert (Hx : ∀ cell, x_dim !! cell
                 = x_dim_at xs (length xs) (1 + length xs) (1 + length xs) 1 cell)
    by (intros cell; apply (Hd cell)).
  assert (Hyd : ∀ cell, y_dim !! cell
                  = y_dim_at xs ys (length xs) (1 + length xs) (1 + length xs) 1 cell)
    by (intros cell; apply (Hd cell)).
  split; [intros r c; rewrite Hx; apply x_dim_at_final | ].
  split; [intros r c; rewrite Hyd; now apply y_dim_at_final | ].
  intros r c Hr Hc. rewrite Hx, Hyd. unfold x_dim_at, y_dim_at.
  split; cell_cases.
Qed.

Lemma filter_complement_length (xs ys : list Z) :
  NoDup xs -> NoDup ys -> ys ⊆ xs ->
  length (filter (fun c => c ∉ ys) xs) = length xs - length ys.
Proof.
  intros Hx Hy Hsub.
  pose proof (filter_app_complement (fun c => c ∈ ys) xs) as Hp.
  apply Permutation_length in Hp. rewrite length_app in Hp.
  assert (Hin : filter (fun c => c ∈ ys) xs ≡ₚ ys).
  { apply NoDup_Permutation; [now apply NoDup_filter | exact Hy | ].
    intros c. rewrite list_elem_of_filter. split; [tauto | ].
    intros Hc. split; [exact Hc | now apply Hsub]. }
  apply Permutation_length in Hin. lia.
Qed.

Lemma filter_all {A : Type} (P : A -> Prop) `{!∀ x, Decision (P x)} (l : list A) :
  Forall P l -> filter P l = l.
Proof.
  induction 1 as [ | x l Hx _ IH]; [reflexivity | ].
  rewrite filter_cons_True by exact Hx. now rewrite IH.
Qed.

Lemma filter_prefix_drop (l : list Z) (k : nat) :
  NoDup l -> filter (fun c => c ∉ take k l) l = drop k l.
Proof.
  intros Hnd.
  rewrite <- (take_drop k l) in Hnd. apply NoDup_app in Hnd as (_ & Hdis & _).
  transitivity (filter (fun c => c ∉ take k l) (take k l ++ drop k l));
    [now rewrite take_drop | ].
  rewrite filter_app.
  rewrite filter_none, filter_all; [reflexivity | | ].
  - apply Forall_forall. intros c Hc Hin. exact (Hdis c Hin Hc).
  - apply Forall_forall. intros c Hc Hn. exact (Hn Hc).
Qed.

Section Grid.
Variable _best_channels : Z -> list Z.
Variable n_features : nat.
Variable cluster_ids : list Z.
Variable first second : Z.
Hypothesis Hfirst : cluster_ids !! 0%nat = Some first.
Hypothesis Hsecond :
  cluster_ids !! Nat.min 1 (length cluster_ids - 1) = Some second.

Lemma dimensions_for_clusters_unfold :
  dimensions_for_clusters _best_channels n_features cluster_ids
  = _dimensions
      (take n_features
         (filter (fun c => c ∉ take n_features (_best_channels first))
            (_best_channels second)))
      (take n_features (_best_channels first)).
Proof.
  assert (Hlen : Nat.eqb (length cluster_ids) 0 = false).
  { apply Nat.eqb_neq. apply lookup_lt_Some in Hfirst. lia. }
  unfold dimensions_for_clusters. rewrite Hlen.
  unfold py_index. rewrite Hsecond, Hfirst. cbn [bind].
  unfold n_rows. rewrite Nat.add_sub. reflexivity.
Qed.

Hypothesis Hx : NoDup (_best_channels second).
Hypothesis Hy : NoDup (_best_channels first).
Hypothesis Hperm : _best_channels second ≡ₚ _best_channels first.

Lemma y_channels_length :
  length (take n_features (_best_channels first))
  = Nat.min n_features (length (_best_channels first)).
Proof. apply length_take. Qed.

Lemma x_channels_length :
  length (take n_features
            (filter (fun c => c ∉ take n_features (_best_channels first))
               (_best_channels second)))
  = Nat.min n_features
      (length (_best_channels first)
       - Nat.min n_features (length (_best_channels first))).
Proof.
  rewrite length_take, filter_complement_length.
  - rewrite y_channels_length. now rewrite (Permutation_length Hperm).
  - exact Hx.
  - eauto using sublist_NoDup, sublist_take.
  - intros c Hc. rewrite Hperm. eapply subseteq_take. exact Hc.
Qed.

(** The feature grid needs twice as many channels as features: with fewer
    channels (and at least one feature and one channel) the filtered x
    channels are fewer than the y channels and [_dimensions] fails its
    assertion; otherwise the dimensions are computed. *)
Theorem dimensions_for_clusters_raises :
  (dimensions_for_clusters _best_channels n_features cluster_ids
     = Raise AssertionError
   <-> 0 < n_features ∧ 0 < length (_best_channels first)
       ∧ length (_best_channels first) < 2 * n_features)
  ∧ (n_features = 0 ∨ length (_best_channels first) = 0
     ∨ 2 * n_features <= length (_best_channels first) ->
     ∃ d, dimensions_for_clusters _best_channels n_features cluster_ids = Ok d).
Proof.
  rewrite dimensions_for_clusters_unfold.
  pose proof y_channels_length as Hly. pose proof x_channels_length as Hlx.
  set (y_channels := take n_features (_best_channels first)) in *.
  set (x_channels := take n_features (filter _ (_best_channels second))) in *.
  split; [split | ].
  - intros Hr.
    destruct (decide (length y_channels = length x_channels)) as [Heq | Hne];
      [ | lia].
    destruct (dimensions_cells x_channels y_channels Heq) as (d & Hd & _).
    congruence.
  - intros Hc. apply dimensions_length_mismatch. lia.
  - intros Hc.
    destruct (dimensions_cells x_channels y_channels ltac:(lia)) as (d & Hd & _).
    eauto.
Qed.

(** With enough channels, the grid has [n_features + 1] rows and columns,
    the y channels are the best channels of the first cluster, in rank
    order, and no interior cell plots a channel against itself: its x
    channel is a channel of the ranking of the second cluster that is not
    among the y channels. *)
Theorem dimensions_for_clusters_grid :
  2 * n_features <= length (_best_channels first) ->
  ∃ x_dim y_dim : dims,
    dimensions_for_clusters _best_channels n_features cluster_ids
      = Ok (x_dim, y_dim)
    ∧ (∀ r c, is_Some (x_dim !! (r, c)) <-> r <= n_features ∧ c <= n_features)
    ∧ (∀ r c, is_Some (y_dim !! (r, c)) <-> r <= n_features ∧ c <= n_features)
    ∧ ∀ r c, 1 <= r <= n_features -> 1 <= c <= n_features ->
        ∃ cx cy,
          x_dim !! (r, c) = Some (ChannelFeature cx (c - 1))
          ∧ y_dim !! (r, c) = Some (ChannelFeature cy (r - 1))
          ∧ _best_channels first !! (c - 1) = Some cy
          ∧ cx ∈ _best_channels second
          ∧ (cx ∉ take n_features (_best_channels first))
          ∧ cx ≠ cy.
Proof.
  intros Hn. rewrite dimensions_for_clusters_unfold.
  pose proof y_channels_length as Hly. pose proof x_channels_length as Hlx.
  set (y_channels := take n_features (_best_channels first)) in *.
  set (x_channels := take n_features (filter _ (_best_channels second))) in *.
  assert (Hlen : length y_channels = length x_channels) by lia.
  assert (Hnx : length x_channels = n_features) by lia.
  destruct (dimensions_lookup x_channels y_channels Hlen)
    as (x_dim & y_dim & Hrun & Hdx & Hdy & Hcells).
  rewrite Hnx in Hdx, Hdy, Hcells.
  exists x_dim, y_dim. split; [exact Hrun | ]. split; [exact Hdx | ].
  split; [exact Hdy | ].
  intros r c Hr Hc. destruct (Hcells r c Hr Hc) as [Hxc Hyc].
  destruct (lookup_lt_is_Some_2 x_channels (r - 1) ltac:(lia)) as [cx Hcx].
  destruct (lookup_lt_is_Some_2 y_channels (c - 1) ltac:(lia)) as [cy Hcy].
  exists cx, cy. rewrite Hxc, Hyc, Hcx, Hcy.
  split; [reflexivity | ]. split; [reflexivity | ].
  assert (Hcx' : cx ∈ filter (fun ch => ch ∉ y_channels) (_best_channels second)).
  { unfold x_channels in Hcx. apply lookup_take_Some in Hcx as [Hcx _].
    eapply list_elem_of_lookup_2. exact Hcx. }
  apply list_elem_of_filter in Hcx' as [Hnot Hin].
  split; [unfold y_channels in Hcy; now apply lookup_take_Some in Hcy as [Hcy _] | ].
  split; [exact Hin | ]. split; [exact Hnot | ].
  intros ->. apply Hnot. eapply list_elem_of_lookup_2. exact Hcy.
Qed.

End Grid.

(** With a single cluster selected, the x channels are the next best
    channels of that cluster: those of ranks [n_features] to
    [2 * n_features - 1], the y channels being those of ranks 0 to
    [n_features - 1]. *)
Theorem dimensions_for_single_cluster (_best_channels : Z -> list Z)
    (n_features : nat) (cluster : Z) :
  NoDup (_best_channels cluster) ->
  dimensions_for_clusters _best_channels n_features [cluster]
  = _dimensions (take n_features (drop n_features (_best_channels cluster)))
      (take n_features (_best_channels cluster)).
Proof.
  intros Hnd.
  rewrite (dimensions_for_clusters_unfold _best_channels n_features [cluster]
             cluster cluster eq_refl eq_refl).
  now rewrite filter_prefix_drop.
Qed.

Lemma example_best_channels_ranking :
  NoDup (example_best_channels 7) ∧ NoDup (example_best_channels 2)
  ∧ example_best_channels 7 ≡ₚ example_best_channels 2.
Proof.
  assert (H7 : NoDup (example_best_channels 7))
    by (apply (bool_decide_eq_true_1 (NoDup _)); vm_compute; reflexivity).
  assert (H2 : NoDup (example_best_channels 2))
    by (apply (bool_decide_eq_true_1 (NoDup _)); vm_compute; reflexivity).
  split; [exact H7 | ]. split; [exact H2 | ].
  apply NoDup_Permutation; [exact H7 | exact H2 | ].
  intros x. unfold example_best_channels. simpl.
  rewrite !elem_of_cons, !elem_of_nil. tauto.
Qed.

Lemma dimensions_for_clusters_raises_witness :
  [2; 7]%Z !! 0%nat = Some 2%Z
  ∧ [2; 7]%Z !! Nat.min 1 (length [2; 7]%Z - 1) = Some 7%Z
  ∧ (2 = 0 ∨ length (example_best_channels 2) = 0
     ∨ 2 * 2 <= length (example_best_channels 2))
  ∧ (∃ d, dimensions_for_clusters example_best_channels 2 [2; 7]%Z = Ok d)
  ∧ (0 < 4 ∧ 0 < length (example_best_channels 2)
     ∧ length (example_best_channels 2) < 2 * 4)
  ∧ dimensions_for_clusters example_best_channels 4 [2; 7]%Z = Raise AssertionError.
Proof.
  destruct example_best_channels_ranking as (H7 & H2 & Hp).
  split; [reflexivity | ]. split; [reflexivity | ].
  split; [right; right; simpl; lia | ]. split; [ | split; [simpl; lia | ]].
  - apply (proj2 (dimensions_for_clusters_raises example_best_channels 2 [2; 7]%Z
                    2%Z 7%Z eq_refl eq_refl H7 H2 Hp)).
    right. right. simpl. lia.
  - apply (proj1 (dimensions_for_clusters_raises example_best_channels 4 [2; 7]%Z
                    2%Z 7%Z eq_refl eq_refl H7 H2 Hp)).
    simpl. lia.
Defined.

Lemma dimensions_for_clusters_grid_witness :
  [2; 7]%Z !! 0%nat = Some 2%Z
  ∧ [2; 7]%Z !! Nat.min 1 (length [2; 7]%Z - 1) = Some 7%Z
  ∧ 2 * 2 <= length (example_best_channels 2)
  ∧ 1 <= 1 <= 2 ∧ 1 <= 2 <= 2
  ∧ ∃ (x_dim y_dim : dims) cx cy,
      dimensions_for_clusters example_best_channels 2 [2; 7]%Z = Ok (x_dim, y_dim)
      ∧ x_dim !! (1, 2) = Some (ChannelFeature cx 1)
      ∧ y_dim !! (1, 2) = Some (ChannelFeature cy 0)
      ∧ example_best_channels 2 !! 1 = Some cy
      ∧ cx ≠ cy.
Proof.
  destruct example_best_channels_ranking as (H7 & H2 & Hp).
  split; [reflexivity | ]. split; [reflexivity | ]. split; [simpl; lia | ].
  split; [lia | ]. split; [lia | ].
  destruct (dimensions_for_clusters_grid example_best_channels 2 [2; 7]%Z
              2%Z 7%Z eq_refl eq_refl H7 H2 Hp ltac:(simpl; lia))
    as (x_dim & y_dim & Hrun & _ & _ & Hcells).
  destruct (Hcells 1 2 ltac:(lia) ltac:(lia))
    as (cx & cy & Hxc & Hyc & Hcy & _ & _ & Hne).
  exists x_dim, y_dim, cx, cy. auto.
Defined.

Lemma dimensions_for_single_cluster_witness :
  NoDup (example_best_channels 2)
  ∧ dimensions_for_clusters example_best_channels 2 [2]%Z
    = _dimensions [2; 1]%Z [3; 0]%Z.
Proof.
  destruct example_best_channels_ranking as (_ & H2 & _).
  split; [exact H2 | ].
  exact (dimensions_for_single_cluster example_best_channels 2 2%Z H2).
Defined.

Section Background.
Local Open Scope Z_scope.





End Background.

End DimensionsMore.
